(** * Verification of the NutriBuddy prompt module (src/prompts.ts)

    A shallow embedding of [buildMessages] and [parseAssistantJson] together
    with the parts of the JavaScript runtime they rely on: [String.prototype.trim],
    [startsWith], [indexOf], [lastIndexOf], [substring], [Object.keys],
    [JSON.parse] and [JSON.stringify].

    Representation of text: a JavaScript string is represented by its UTF-8
    encoding, as a Rocq [string] (a list of bytes).  Every operation used by the
    module either inspects ASCII characters only ([{], [}], [[], quotes,
    whitespace) or copies text verbatim, and the UTF-8 encoding of a non-ASCII
    character never contains an ASCII byte, so the byte view gives the same
    results as the UTF-16 view of the engine (indices differ, the substrings
    they delimit do not). *)

From Stdlib Require Import Strings.String Strings.Ascii ZArith List Bool Lia Permutation.
From Stdlib Require Import Numbers.DecimalString Numbers.DecimalPos Wf_nat.
Import ListNotations.
Open Scope list_scope.
Open Scope string_scope.
Set Warnings "-register-all".

(** ** JavaScript values and the JSON built-ins *)
Module Js.

(** A byte given by its code. *)
Definition chr (n : nat) : ascii := ascii_of_nat n.

(** The one-character string holding a double quote. *)
Definition dquote : ascii := chr 34.
Definition backslash : ascii := chr 92.
Definition str1 (c : ascii) : string := String c EmptyString.

(** A finite JavaScript number, kept as the exact decimal [mant * 10^exp10].
    Binary floating-point rounding is not modelled; no claim depends on it. *)
Record num := Num { mant : Z; exp10 : Z }.

(** JavaScript values as far as JSON is concerned.  An object is the list of
    its own enumerable properties in property order, which is the order
    [Object.keys] and [JSON.stringify] visit them in. *)
Inductive value : Type :=
| VUndefined
| VNull
| VBool (b : bool)
| VNum (n : num)
| VStr (s : string)
| VArr (l : list value)
| VObj (ps : list (string * value)).

Definition js_object : Type := list (string * value).

(** Completion of a JavaScript statement or call: a normal result or a thrown
    exception (for [JSON.parse]: a [SyntaxError] with its message). *)
Inductive completion (A : Type) : Type :=
| Normal (a : A)
| Throw (err : string).
Arguments Normal {A} a.
Arguments Throw {A} err.

(** [Object.keys] *)
Definition keys (o : js_object) : list string := map fst o.

(** *** String.prototype helpers *)

(** The code points removed by [String.prototype.trim] (WhiteSpace and
    LineTerminator of ECMA-262), as their UTF-8 byte sequences. *)
Definition js_ws_seqs : list (list nat) :=
  [ [9]; [10]; [11]; [12]; [13]; [32];
    [194; 160];                                  (* U+00A0 *)
    [225; 154; 128];                             (* U+1680 *)
    [226; 128; 128]; [226; 128; 129]; [226; 128; 130]; [226; 128; 131];
    [226; 128; 132]; [226; 128; 133]; [226; 128; 134]; [226; 128; 135];
    [226; 128; 136]; [226; 128; 137]; [226; 128; 138]; (* U+2000..U+200A *)
    [226; 128; 168]; [226; 128; 169];            (* U+2028, U+2029 *)
    [226; 128; 175];                             (* U+202F *)
    [226; 129; 159];                             (* U+205F *)
    [227; 128; 128];                             (* U+3000 *)
    [239; 187; 191] ].                           (* U+FEFF *)

Fixpoint strip_prefix (p : list nat) (l : list ascii) : option (list ascii) :=
  match p, l with
  | [], _ => Some l
  | n :: p', c :: l' => if Nat.eqb n (nat_of_ascii c) then strip_prefix p' l' else None
  | _ :: _, [] => None
  end.

Fixpoint first_some {A B} (f : A -> option B) (l : list A) : option B :=
  match l with
  | [] => None
  | x :: l' => match f x with Some y => Some y | None => first_some f l' end
  end.

(** Remove leading occurrences of the byte sequences [seqs]; [fuel] bounds
    the number of sequences removed, and the length of the input is always
    enough since each removal takes at least one byte. *)
Fixpoint strip_seqs (seqs : list (list nat)) (fuel : nat) (l : list ascii) : list ascii :=
  match fuel with
  | O => l
  | S f =>
      match first_some (fun p => strip_prefix p l) seqs with
      | Some l' => strip_seqs seqs f l'
      | None => l
      end
  end.

(** [String.prototype.trim]: leading white space is stripped from the front,
    trailing white space by stripping the reversed sequences from the
    reversed bytes. *)
Definition js_trim (s : string) : string :=
  let l := list_ascii_of_string s in
  let l1 := strip_seqs js_ws_seqs (length l) l in
  let r := rev l1 in
  string_of_list_ascii (rev (strip_seqs (map (@rev nat) js_ws_seqs) (length r) r)).

(** [s.startsWith(p)] *)
Definition starts_with (s p : string) : bool := String.prefix p s.

(** [s.indexOf(c)] for a one-character search string: the first index, or -1. *)
Fixpoint index_of_from (c : ascii) (l : list ascii) (i : Z) : Z :=
  match l with
  | [] => (-1)%Z
  | d :: l' => if Ascii.eqb c d then i else index_of_from c l' (i + 1)%Z
  end.

Definition index_of (s : string) (c : ascii) : Z :=
  index_of_from c (list_ascii_of_string s) 0%Z.

(** [s.lastIndexOf(c)]: the last index, or -1. *)
Fixpoint last_index_of_from (c : ascii) (l : list ascii) (i : Z) (best : Z) : Z :=
  match l with
  | [] => best
  | d :: l' => last_index_of_from c l' (i + 1)%Z (if Ascii.eqb c d then i else best)
  end.

Definition last_index_of (s : string) (c : ascii) : Z :=
  last_index_of_from c (list_ascii_of_string s) 0%Z (-1)%Z.

(** [s.substring(start, end)]: both bounds clamped to [0, length], swapped
    when [start > end]. *)
Definition js_substring (s : string) (start end_ : Z) : string :=
  let len := Z.of_nat (String.length s) in
  let a := Z.min (Z.max start 0) len in
  let b := Z.min (Z.max end_ 0) len in
  let lo := Z.min a b in
  let hi := Z.max a b in
  String.substring (Z.to_nat lo) (Z.to_nat (hi - lo)) s.

(** *** JSON.parse *)

Definition is_json_ws (c : ascii) : bool :=
  let n := nat_of_ascii c in
  Nat.eqb n 9 || Nat.eqb n 10 || Nat.eqb n 13 || Nat.eqb n 32.

Fixpoint skip_ws (l : list ascii) : list ascii :=
  match l with
  | c :: l' => if is_json_ws c then skip_ws l' else l
  | [] => []
  end.

Definition digit_val (c : ascii) : option Z :=
  let n := nat_of_ascii c in
  if Nat.leb 48 n && Nat.leb n 57 then Some (Z.of_nat (n - 48)) else None.

Definition is_digit (c : ascii) : bool :=
  match digit_val c with Some _ => true | None => false end.

(** The longest prefix of decimal digits, and the rest. *)
Fixpoint take_digits (l : list ascii) : list ascii * list ascii :=
  match l with
  | c :: l' =>
      if is_digit c then let (ds, r) := take_digits l' in (c :: ds, r) else ([], l)
  | [] => ([], [])
  end.

Definition digits_to_Z (ds : list ascii) : Z :=
  fold_left (fun acc c => match digit_val c with
                          | Some d => (10 * acc + d)%Z
                          | None => acc end) ds 0%Z.

(** JSON number: [-? (0 | [1-9][0-9]* ) (. [0-9]+)? ([eE] [+-]? [0-9]+)?]. *)
Definition p_number (l : list ascii) : option (num * list ascii) :=
  let (neg, l1) := match l with
                   | c :: r => if Ascii.eqb c "-"%char then (true, r) else (false, l)
                   | [] => (false, l)
                   end in
  let int_part :=
    match l1 with
    | c :: r =>
        if Ascii.eqb c "0"%char then Some ([c], r)
        else if is_digit c then Some (take_digits l1)
        else None
    | [] => None
    end in
  match int_part with
  | None => None
  | Some (ids, l2) =>
      let frac :=
        match l2 with
        | c :: r =>
            if Ascii.eqb c "."%char then
              match take_digits r with
              | ([], _) => None
              | (fds, r') => Some (fds, r')
              end
            else Some ([], l2)
        | [] => Some ([], l2)
        end in
      match frac with
      | None => None
      | Some (fds, l3) =>
          let ex :=
            match l3 with
            | c :: r =>
                if Ascii.eqb c "e"%char || Ascii.eqb c "E"%char then
                  let (eneg, r1) :=
                    match r with
                    | s :: r' => if Ascii.eqb s "-"%char then (true, r')
                                 else if Ascii.eqb s "+"%char then (false, r')
                                 else (false, r)
                    | [] => (false, r)
                    end in
                  match take_digits r1 with
                  | ([], _) => None
                  | (eds, r2) =>
                      let e := digits_to_Z eds in
                      Some (if eneg then (- e)%Z else e, r2)
                  end
                else Some (0%Z, l3)
            | [] => Some (0%Z, l3)
            end in
          match ex with
          | None => None
          | Some (e, l4) =>
              let m := digits_to_Z (ids ++ fds) in
              Some (Num (if neg then (- m)%Z else m)
                        (e - Z.of_nat (length fds))%Z, l4)
          end
      end
  end.

Definition hex_val (c : ascii) : option nat :=
  let n := nat_of_ascii c in
  if Nat.leb 48 n && Nat.leb n 57 then Some (n - 48)
  else if Nat.leb 65 n && Nat.leb n 70 then Some (n - 55)
  else if Nat.leb 97 n && Nat.leb n 102 then Some (n - 87)
  else None.

(** A UTF-16 code unit as bytes, each surrogate encoded on its own. *)
Definition utf8_of_unit (u : nat) : list ascii :=
  if Nat.ltb u 128 then [chr u]
  else if Nat.ltb u 2048 then [chr (192 + u / 64); chr (128 + u mod 64)]
  else [chr (224 + u / 4096); chr (128 + (u / 64) mod 64); chr (128 + u mod 64)].

(** Characters of a string literal after its opening quote; [acc] holds the
    characters read so far, reversed. *)
Fixpoint p_chars (l : list ascii) (acc : list ascii) : option (string * list ascii) :=
  match l with
  | [] => None
  | c :: r =>
      if Ascii.eqb c dquote then Some (string_of_list_ascii (rev acc), r)
      else if Ascii.eqb c backslash then
        match r with
        | e :: r' =>
            let n := nat_of_ascii e in
            if Nat.eqb n 34 then p_chars r' (chr 34 :: acc)
            else if Nat.eqb n 92 then p_chars r' (chr 92 :: acc)
            else if Nat.eqb n 47 then p_chars r' (chr 47 :: acc)
            else if Ascii.eqb e "b"%char then p_chars r' (chr 8 :: acc)
            else if Ascii.eqb e "f"%char then p_chars r' (chr 12 :: acc)
            else if Ascii.eqb e "n"%char then p_chars r' (chr 10 :: acc)
            else if Ascii.eqb e "r"%char then p_chars r' (chr 13 :: acc)
            else if Ascii.eqb e "t"%char then p_chars r' (chr 9 :: acc)
            else if Ascii.eqb e "u"%char then
              match r' with
              | h1 :: h2 :: h3 :: h4 :: r'' =>
                  match hex_val h1, hex_val h2, hex_val h3, hex_val h4 with
                  | Some a, Some b, Some c', Some d =>
                      p_chars r'' (rev (utf8_of_unit (((a * 16 + b) * 16 + c') * 16 + d)) ++ acc)
                  | _, _, _, _ => None
                  end
              | _ => None
              end
            else None
        | [] => None
        end
      else if Nat.ltb (nat_of_ascii c) 32 then None
      else p_chars r (c :: acc)
  end.

(** Adding a parsed member to an object: a repeated key keeps its first
    position and takes the later value (CreateDataProperty). *)
Fixpoint obj_set (ps : js_object) (k : string) (v : value) : js_object :=
  match ps with
  | [] => [(k, v)]
  | (k', v') :: ps' =>
      if String.eqb k k' then (k, v) :: ps' else (k', v') :: obj_set ps' k v
  end.

(** The literal [w] at the head of [l]. *)
Fixpoint p_lit (w : list ascii) (l : list ascii) : option (list ascii) :=
  match w, l with
  | [], _ => Some l
  | a :: w', c :: l' => if Ascii.eqb a c then p_lit w' l' else None
  | _ :: _, [] => None
  end.

(** Recursive descent over the bytes.  [fuel] bounds the depth of calls: a
    scalar needs 1, and an array or object of [m] members needs at most one
    more than the sum of its members' needs plus [m], which is at most its
    byte length (brackets and separators); so the input length plus one is
    always enough and running out of fuel never occurs on real input. *)
Fixpoint p_value (fuel : nat) (l : list ascii) {struct fuel} : option (value * list ascii) :=
  match fuel with
  | O => None
  | S f =>
      match skip_ws l with
      | [] => None
      | c :: r =>
          if Ascii.eqb c "{"%char then
            match skip_ws r with
            | c' :: r' => if Ascii.eqb c' "}"%char then Some (VObj [], r')
                          else p_members f (skip_ws r) []
            | [] => None
            end
          else if Ascii.eqb c "["%char then
            match skip_ws r with
            | c' :: r' => if Ascii.eqb c' "]"%char then Some (VArr [], r')
                          else p_elems f (skip_ws r) []
            | [] => None
            end
          else if Ascii.eqb c dquote then
            match p_chars r [] with
            | Some (s, r') => Some (VStr s, r')
            | None => None
            end
          else if Ascii.eqb c "t"%char then
            option_map (fun r' => (VBool true, r')) (p_lit (list_ascii_of_string "rue") r)
          else if Ascii.eqb c "f"%char then
            option_map (fun r' => (VBool false, r')) (p_lit (list_ascii_of_string "alse") r)
          else if Ascii.eqb c "n"%char then
            option_map (fun r' => (VNull, r')) (p_lit (list_ascii_of_string "ull") r)
          else if Ascii.eqb c "-"%char || is_digit c then
            option_map (fun '(n, r') => (VNum n, r')) (p_number (c :: r))
          else None
      end
  end
(** Array elements; [acc] holds the elements read so far, reversed. *)
with p_elems (fuel : nat) (l : list ascii) (acc : list value) {struct fuel}
  : option (value * list ascii) :=
  match fuel with
  | O => None
  | S f =>
      match p_value f l with
      | None => None
      | Some (v, r) =>
          match skip_ws r with
          | c :: r' =>
              if Ascii.eqb c ","%char then p_elems f r' (v :: acc)
              else if Ascii.eqb c "]"%char then Some (VArr (rev (v :: acc)), r')
              else None
          | [] => None
          end
      end
  end
(** Object members, starting at the opening quote of a key. *)
with p_members (fuel : nat) (l : list ascii) (acc : js_object) {struct fuel}
  : option (value * list ascii) :=
  match fuel with
  | O => None
  | S f =>
      match l with
      | q :: r =>
          if Ascii.eqb q dquote then
            match p_chars r [] with
            | None => None
            | Some (k, r1) =>
                match skip_ws r1 with
                | c :: r2 =>
                    if Ascii.eqb c ":"%char then
                      match p_value f r2 with
                      | None => None
                      | Some (v, r3) =>
                          match skip_ws r3 with
                          | d :: r4 =>
                              if Ascii.eqb d ","%char then p_members f (skip_ws r4) (obj_set acc k v)
                              else if Ascii.eqb d "}"%char then Some (VObj (obj_set acc k v), r4)
                              else None
                          | [] => None
                          end
                      end
                    else None
                | [] => None
                end
            end
          else None
      | [] => None
      end
  end.

(** [JSON.parse(text)]: one value surrounded by JSON white space, or a
    thrown [SyntaxError]. *)
Definition JSON_parse (text : string) : completion value :=
  let l := list_ascii_of_string text in
  match p_value (S (length l)) l with
  | Some (v, r) =>
      match skip_ws r with
      | [] => Normal v
      | _ :: _ => Throw "SyntaxError: Unexpected non-whitespace character after JSON"
      end
  | None => Throw "SyntaxError: Unexpected token"
  end.

(** *** JSON.stringify *)

Definition hex_digit (n : nat) : ascii :=
  if Nat.ltb n 10 then chr (48 + n) else chr (87 + n).

(** QuoteJSONString: the quote, backslash and control characters are
    escaped, every other byte is copied. *)
Fixpoint quote_chars (l : list ascii) : string :=
  match l with
  | [] => EmptyString
  | c :: l' =>
      let n := nat_of_ascii c in
      let esc :=
        if Nat.eqb n 34 then String backslash (str1 dquote)
        else if Nat.eqb n 92 then String backslash (str1 backslash)
        else if Nat.eqb n 8 then String backslash "b"
        else if Nat.eqb n 12 then String backslash "f"
        else if Nat.eqb n 10 then String backslash "n"
        else if Nat.eqb n 13 then String backslash "r"
        else if Nat.eqb n 9 then String backslash "t"
        else if Nat.ltb n 32 then
          String backslash (String "u"%char (String "0"%char (String "0"%char
            (String (hex_digit (n / 16)) (str1 (hex_digit (n mod 16)))))))
        else str1 c in
      esc ++ quote_chars l'
  end.

Definition quote (s : string) : string :=
  str1 dquote ++ quote_chars (list_ascii_of_string s) ++ str1 dquote.

(** Decimal digits of a positive integer. *)
Definition digits_of_pos (p : positive) : string :=
  NilEmpty.string_of_uint (Pos.to_uint p).

(** Decimal digits of [|z|]. *)
Definition digits_of_Z (z : Z) : string :=
  match Z.abs z with
  | Zpos p => digits_of_pos p
  | _ => "0"
  end.

Fixpoint zeros (n : nat) : string :=
  match n with O => EmptyString | S n' => String "0"%char (zeros n') end.

(** Remove trailing zeros of the mantissa, raising the exponent; [fuel] is
    the number of digits of the mantissa. *)
Fixpoint normalize (fuel : nat) (m e : Z) : Z * Z :=
  match fuel with
  | O => (m, e)
  | S f => if Z.eqb (m mod 10) 0 then normalize f (m / 10) (e + 1) else (m, e)
  end.

(** Number::toString for a positive decimal [m * 10^e] (ECMA-262, radix 10):
    [s] holds the [k] significant digits, the value is [0.s * 10^n]. *)
Definition pos_num_to_string (m e : Z) : string :=
  let (m', e') := normalize (String.length (digits_of_Z m)) m e in
  let s := digits_of_Z m' in
  let k := Z.of_nat (String.length s) in
  let n := (k + e')%Z in
  if (k <=? n)%Z && (n <=? 21)%Z then s ++ zeros (Z.to_nat (n - k))
  else if (0 <? n)%Z && (n <=? 21)%Z then
    String.substring 0 (Z.to_nat n) s ++ "." ++ String.substring (Z.to_nat n) (Z.to_nat (k - n)) s
  else if (-6 <? n)%Z && (n <=? 0)%Z then "0." ++ zeros (Z.to_nat (- n)) ++ s
  else
    let ex := (n - 1)%Z in
    let sgn := if (0 <=? ex)%Z then "+" else "-" in
    if (k =? 1)%Z then s ++ "e" ++ sgn ++ digits_of_Z ex
    else String.substring 0 1 s ++ "." ++ String.substring 1 (Z.to_nat (k - 1)) s
         ++ "e" ++ sgn ++ digits_of_Z ex.

Definition num_to_string (x : num) : string :=
  let m := mant x in
  if (m =? 0)%Z then "0"
  else if (m <? 0)%Z then "-" ++ pos_num_to_string (- m) (exp10 x)
  else pos_num_to_string m (exp10 x).

(** SerializeJSONProperty: [None] is the result [undefined] (an undefined
    value); array holes serialize as [null], object members whose value
    serializes to [undefined] are left out. *)
Fixpoint JSON_stringify (v : value) : option string :=
  match v with
  | VUndefined => None
  | VNull => Some "null"
  | VBool true => Some "true"
  | VBool false => Some "false"
  | VNum n => Some (num_to_string n)
  | VStr s => Some (quote s)
  | VArr l =>
      Some ("[" ++ String.concat ","
                    (map (fun x => match JSON_stringify x with
                                   | Some t => t
                                   | None => "null" end) l) ++ "]")
  | VObj ps =>
      let fix members (ps : list (string * value)) : list string :=
        match ps with
        | [] => []
        | (k, x) :: ps' =>
            match JSON_stringify x with
            | Some t => (quote k ++ ":" ++ t) :: members ps'
            | None => members ps'
            end
        end in
      Some ("{" ++ String.concat "," (members ps) ++ "}")
  end.

(** [JSON.stringify] of an object always yields a string. *)
Definition stringify_object (o : js_object) : string :=
  match JSON_stringify (VObj o) with Some t => t | None => EmptyString end.

(** Property access [o[k]] on a value (undefined when absent). *)
Definition get (v : value) (k : string) : value :=
  match v with
  | VObj ps =>
      match find (fun '(k', _) => String.eqb k k') ps with
      | Some (_, x) => x
      | None => VUndefined
      end
  | _ => VUndefined
  end.

End Js.

(** ** The prompt module (src/prompts.ts) *)
Module Prompts.
Import Js.

Definition nl : string := str1 (chr 10).

(** Source text containing double quotes is written with a backquote in their
    place (the backquote cannot occur in these texts: they are template
    literals); [dq] puts the double quotes back. *)
Definition dq (s : string) : string :=
  string_of_list_ascii
    (map (fun c => if Ascii.eqb c "`"%char then dquote else c) (list_ascii_of_string s)).

(** The three values imported from ./config, a file not in the repository
    sources; every result below holds for all their values. *)
Record config := Config { AI_NAME : string; OWNER_NAME : string; DATE_AND_TIME : string }.

(** The types of the module.  [UserProfile] and [SessionState] are plain
    JavaScript objects at run time and are only handed to [Object.keys] and
    [JSON.stringify], so they are modelled as objects: their own properties in
    property order.  An optional field is [None] when it is [undefined]. *)
Definition UserProfile : Type := js_object.
Definition SessionState : Type := js_object.

Record BuildMessagesOptions := Opts {
  userName : option string;
  userProfile : option UserProfile;
  sessionState : option SessionState;
  userMessage : string;
  requireJSONResponse : option bool;
  language : option string }.

Inductive Role := system | user | assistant.

Record message := Msg { role : Role; content : string }.

Definition IDENTITY_PROMPT (cfg : config) : string :=
  js_trim (nl ++ "You are " ++ AI_NAME cfg ++ ", an agentic assistant. You are designed by "
           ++ OWNER_NAME cfg
           ++ ", not OpenAI, Anthropic, or any other third-party AI vendor." ++ nl).

Definition TOOL_CALLING_PROMPT : string := js_trim "
- In order to be as truthful as possible, call tools to gather context before answering.
- Prioritize retrieving from the vector database; if the answer is not found there, then search the web.
".

Definition TONE_STYLE_PROMPT : string := js_trim "
- Maintain a friendly, approachable, and helpful tone at all times.
- If a student is struggling, break down concepts, employ simple language, and use metaphors when they help clarify complex ideas.
".

Definition GUARDRAILS_PROMPT : string := js_trim "
- Strictly refuse and end engagement if a request involves dangerous, illegal, shady, or inappropriate activities.
".

Definition CITATIONS_PROMPT : string := js_trim "
- Always cite your sources using inline markdown, e.g., [Source #](https://example.com).
- Do not ever write [Source #] without providing the URL as a markdown link.
".

Definition COURSE_CONTEXT_PROMPT : string := js_trim "
- Most basic questions about the course can be answered by reading the syllabus.
".

Definition NUTRIBUDDY_GUIDANCE : string := js_trim (dq "
You are NutriBuddy — a friendly nutrition & meal-planning assistant with these core responsibilities:
 - Log food items and estimate calories and macros when asked.
 - Keep track of the user's daily kcal progress vs their goal.
 - Suggest recipes and meals based on ingredients provided and dietary preferences.
 - Ask focused clarifying questions when key details are missing (e.g., portion size, brand, or preparation method).
 - When asked to output structured data (the app will set requireJSONResponse=true), respond with ONLY valid JSON that follows the schema described below.

JSON schema (the assistant must follow when app requests JSON):
{
  `intent`: `<string: one of log_food | suggest_meal | get_snapshot | set_goal | greet | farewell | ask_clarifying | info | generic>`,
  `fulfillment_text`: `<human-friendly reply (string)>`,
  `data`: { /* intent-specific payload: see examples below */ },
  `follow_up`: {
    `should_ask`: boolean,
    `questions`: [ `<question 1>`, `<question 2>` ]
  }
}

Example payloads:
 - log_food: data = { items: [{name, quantity, kcal}], added_kcal, new_total_kcal, goal_kcal, progress_percent }
 - suggest_meal: data = { suggestions: [{title, ingredients, est_kcal, short_prep}], ... }
 - get_snapshot: data = { today_kcal_consumed, remaining_kcal, goal_kcal, top_items }
 - set_goal: data = { new_goal_kcal }

Label estimates clearly (e.g., `≈220 kcal`) and avoid definitive medical claims.
If the user requests medical or therapeutic diet advice, refuse to provide specialized medical guidance and recommend a registered dietitian or doctor.
").

Definition SYSTEM_PROMPT (cfg : config) : string :=
  js_trim (nl ++ IDENTITY_PROMPT cfg ++ nl ++ nl
    ++ "<tool_calling>" ++ nl ++ TOOL_CALLING_PROMPT ++ nl ++ "</tool_calling>" ++ nl ++ nl
    ++ "<tone_style>" ++ nl ++ TONE_STYLE_PROMPT ++ nl ++ "</tone_style>" ++ nl ++ nl
    ++ "<guardrails>" ++ nl ++ GUARDRAILS_PROMPT ++ nl ++ "</guardrails>" ++ nl ++ nl
    ++ "<citations>" ++ nl ++ CITATIONS_PROMPT ++ nl ++ "</citations>" ++ nl ++ nl
    ++ "<course_context>" ++ nl ++ COURSE_CONTEXT_PROMPT ++ nl ++ "</course_context>" ++ nl ++ nl
    ++ "<nutribuddy>" ++ nl ++ NUTRIBUDDY_GUIDANCE ++ nl ++ "</nutribuddy>" ++ nl ++ nl
    ++ "<date_time>" ++ nl ++ DATE_AND_TIME cfg ++ nl ++ "</date_time>" ++ nl).

(** An integer-valued number literal. *)
Definition int (z : Z) : value := VNum (Num z 0).

Definition fewShotExamples : list message := [
  Msg user
    "Hi, my daily calorie goal is 2000 kcal. I had 2 boiled eggs and one slice whole wheat toast this morning. Please log that.";
  Msg assistant (stringify_object [
    ("intent", VStr "log_food");
    ("fulfillment_text", VStr
      "Logged 2 boiled eggs (≈156 kcal) and 1 slice whole-wheat toast (≈70 kcal). Added ≈226 kcal to today.");
    ("data", VObj [
      ("items", VArr [
        VObj [("name", VStr "Boiled egg"); ("quantity", VStr "2"); ("kcal", int 156)];
        VObj [("name", VStr "Whole wheat toast"); ("quantity", VStr "1 slice"); ("kcal", int 70)]]);
      ("added_kcal", int 226);
      ("new_total_kcal", int 226);
      ("goal_kcal", int 2000);
      ("progress_percent", VNum (Num 113 (-1)))]);
    ("follow_up", VObj [("should_ask", VBool false); ("questions", VArr [])])]);

  Msg user
    "I have chickpeas, tomatoes, spinach, and oats. Vegetarian — want lunch under 600 kcal. Suggestions?";
  Msg assistant (stringify_object [
    ("intent", VStr "suggest_meal");
    ("fulfillment_text", VStr
      "Here are 3 vegetarian lunch ideas under ~600 kcal using those ingredients. Which would you like the recipe for?");
    ("data", VObj [
      ("suggestions", VArr [
        VObj [
          ("title", VStr "Chickpea & Spinach Curry with Brown Rice");
          ("ingredients", VArr (map VStr ["chickpeas"; "spinach"; "tomato"; "onion"; "spices"; "1/2 cup brown rice"]));
          ("est_kcal", int 520);
          ("short_prep", VStr "Sauté onion, add tomatoes & spices, add chickpeas & spinach, simmer. Serve with cooked brown rice.")];
        VObj [
          ("title", VStr "Savory Oat & Chickpea Patties with Tomato Chutney");
          ("ingredients", VArr (map VStr ["oats"; "chickpeas"; "spinach"; "tomato"; "garlic"]));
          ("est_kcal", int 470)]])]);
    ("follow_up", VObj [("should_ask", VBool true); ("questions", VArr [VStr "Which recipe would you like?"])])]);

  Msg user "I had a bowl of cereal this morning.";
  Msg assistant
    "Could you tell me which cereal (brand) and approximate portion (cups or grams)? If unknown, tell me bowl size (small/medium/large)."
].

Definition opt_default {A} (d : A) (o : option A) : A :=
  match o with Some x => x | None => d end.

(** [x && Object.keys(x).length ? ... : ...] *)
Definition has_keys (o : option js_object) : bool :=
  match o with
  | Some p => negb (Nat.eqb (length (keys p)) 0)
  | None => false
  end.

Definition buildMessages (cfg : config) (opts : BuildMessagesOptions) : list message :=
  let userName := opt_default "User" (userName opts) in
  let userProfile := userProfile opts in
  let sessionState := sessionState opts in
  let userMessage := userMessage opts in
  let requireJSONResponse := opt_default true (requireJSONResponse opts) in
  let language := opt_default "English" (language opts) in
  let profileBlock :=
    match userProfile with
    | Some p => if has_keys userProfile then "User profile: " ++ stringify_object p ++ "."
                else "User profile: Not provided."
    | None => "User profile: Not provided."
    end in
  let sessionBlock :=
    match sessionState with
    | Some s => if has_keys sessionState then "Session state: " ++ stringify_object s ++ "."
                else "Session state: Not provided."
    | None => "Session state: Not provided."
    end in
  let jsonInstruction :=
    if requireJSONResponse
    then nl ++ nl ++ "IMPORTANT: Respond with ONLY valid JSON using the schema in the system prompt. Do NOT include any extra explanatory text."
    else nl ++ nl ++ "You may respond in natural " ++ language
            ++ dq " text. If helpful, include a short JSON payload labeled `assistant_payload`." in
  let messages :=
    [ Msg system (SYSTEM_PROMPT cfg);
      Msg system
        ("Context for this session:" ++ nl ++
         "User display name: " ++ userName ++ "." ++ nl ++
         profileBlock ++
         nl ++
         sessionBlock ++
         nl ++ "Assistant response language: " ++ language ++ "." ++
         jsonInstruction) ] in
  (* Append few-shot examples *)
  let messages :=
    fold_left (fun msgs ex => (msgs ++ [Msg (role ex) (content ex)])%list) fewShotExamples messages in
  (* Add the live user message *)
  (messages ++ [Msg user userMessage])%list.

(** *** parseAssistantJson

    The function is written against the engine's [JSON.parse], a section
    variable [parse], so that properties holding for every parser (no
    exception escapes, no parse attempted) can be stated; the module's own
    function is the instance at [Js.JSON_parse]. *)
Section Extractor.
Variable parse : string -> completion value.

(** The body of the [try] block: [Normal (Some v)] is [return v],
    [Normal None] falls through to the final [return null], [Throw] is a
    [JSON.parse] exception. *)
Definition try_block (trimmed : string) : completion (option value) :=
  if starts_with trimmed "{" || starts_with trimmed "[" then
    match parse trimmed with
    | Normal v => Normal (Some v)
    | Throw e => Throw e
    end
  else
    let first := index_of trimmed "{"%char in
    let last := last_index_of trimmed "}"%char in
    if negb (first =? -1)%Z && negb (last =? -1)%Z && (first <? last)%Z then
      let sub := js_substring trimmed first (last + 1) in
      match parse sub with
      | Normal v => Normal (Some v)
      | Throw e => Throw e
      end
    else Normal None.

(** [parseAssistantJson(text)]; [None] for [text] is [null]/[undefined],
    a result [None] is the returned [null]. *)
Definition parseAssistantJson_with (text : option string) : completion (option value) :=
  match text with
  | None => Normal None
  | Some t =>
      if String.eqb t EmptyString then Normal None
      else
        let trimmed := js_trim t in
        match try_block trimmed with
        | Normal r => Normal r
        | Throw _ => (* ignore parse errors *) Normal None
        end
  end.

End Extractor.

Definition parseAssistantJson (text : option string) : completion (option value) :=
  parseAssistantJson_with JSON_parse text.

(** *** The extraction algorithm in the words of the specification
    (section 4.2), for comparison with [parseAssistantJson]. *)

(** Position of the first occurrence of [c]. *)
Fixpoint first_pos (c : ascii) (s : string) : option nat :=
  match s with
  | EmptyString => None
  | String d s' =>
      if Ascii.eqb c d then Some 0 else option_map S (first_pos c s')
  end.

(** Position of the last occurrence of [c]. *)
Fixpoint last_pos (c : ascii) (s : string) : option nat :=
  match s with
  | EmptyString => None
  | String d s' =>
      match last_pos c s' with
      | Some k => Some (S k)
      | None => if Ascii.eqb c d then Some 0 else None
      end
  end.

(** (1) trimmed text starting with [{] or [[]: parse all of it; (2) otherwise
    parse the inclusive span from the first [{] to the last [}] when the
    last comes after the first; (3) absent when there is nothing to parse or
    the parse fails. *)
Definition spec_extract (text : string) : option value :=
  let t := js_trim text in
  let attempt u := match JSON_parse u with Normal v => Some v | Throw _ => None end in
  if starts_with t "{" || starts_with t "[" then attempt t
  else
    match first_pos "{"%char t, last_pos "}"%char t with
    | Some i, Some j => if Nat.ltb i j then attempt (String.substring i (j - i + 1) t) else None
    | _, _ => None
    end.

End Prompts.

(** ** Chat persistence (src/prompts.ts, lines 397-432 and the handlers of
    [ChatPage]) *)
Module Storage.
Import Js.

(** The page's [localStorage]: its items in insertion order, and the quota of
    the origin.  [setItem] throws a [QuotaExceededError] and leaves the items
    as they were when the new items would exceed the quota; the size of the
    items is the total length of their keys and values. *)
Record local_storage := LocalStorage {
  items : list (string * string);
  quota : nat
}.

(** The global environment of the page: [None] when the code runs on the
    server, where [typeof window === "undefined"]. *)
Definition env : Type := option local_storage.

(** [localStorage.getItem(k)]: the stored string, or [null]. *)
Definition getItem (st : local_storage) (k : string) : option string :=
  match find (fun '(k', _) => String.eqb k k') (items st) with
  | Some (_, v) => Some v
  | None => None
  end.

Fixpoint set_item (its : list (string * string)) (k v : string) : list (string * string) :=
  match its with
  | [] => [(k, v)]
  | (k', v') :: its' =>
      if String.eqb k k' then (k, v) :: its' else (k', v') :: set_item its' k v
  end.

Definition storage_size (its : list (string * string)) : nat :=
  list_sum (map (fun '(k, v) => String.length k + String.length v) its).

(** [localStorage.setItem(k, v)] *)
Definition setItem (st : local_storage) (k v : string) : completion local_storage :=
  let its := set_item (items st) k v in
  if Nat.leb (storage_size its) (quota st) then Normal (LocalStorage its (quota st))
  else Throw "QuotaExceededError: The quota has been exceeded.".

Definition STORAGE_KEY : string := "chat-messages".

(** ToBoolean *)
Definition truthy (v : value) : bool :=
  match v with
  | VUndefined | VNull => false
  | VBool b => b
  | VNum n => negb (Z.eqb (mant n) 0)
  | VStr s => negb (String.eqb s EmptyString)
  | VArr _ | VObj _ => true
  end.

(** [a || b] *)
Definition js_or (a b : value) : value := if truthy a then a else b.

(** [v.k] on a value produced by [JSON.parse]: a [TypeError] on [null]; on a
    primitive or an array the JSON member names used here are absent. *)
Definition member (v : value) (k : string) : completion value :=
  match v with
  | VUndefined | VNull => Throw "TypeError: Cannot read properties of null"
  | _ => Normal (get v k)
  end.

(** [{ messages: [], durations: {} }] *)
Definition empty_chat : value * value := (VArr [], VObj []).

(** [loadMessagesFromStorage()]: the pair [(messages, durations)]. *)
Definition loadMessagesFromStorage (w : env) : value * value :=
  match w with
  | None => empty_chat
  | Some st =>
      let attempt :=
        match getItem st STORAGE_KEY with
        | None => Normal empty_chat
        | Some stored =>
            if String.eqb stored EmptyString then Normal empty_chat
            else
              match JSON_parse stored with
              | Throw e => Throw e
              | Normal parsed =>
                  match member parsed "messages" with
                  | Throw e => Throw e
                  | Normal m =>
                      match member parsed "durations" with
                      | Throw e => Throw e
                      | Normal d => Normal (js_or m (VArr []), js_or d (VObj []))
                      end
                  end
              end
        end in
      match attempt with
      | Normal r => r
      | Throw _ => (* console.error *) empty_chat
      end
  end.

(** [saveMessagesToStorage(messages, durations)]: the environment after the
    call; a failing [setItem] is caught and logged. *)
Definition saveMessagesToStorage (w : env) (messages durations : value) : env :=
  match w with
  | None => None
  | Some st =>
      let data := [("messages", messages); ("durations", durations)] in
      match setItem st STORAGE_KEY (stringify_object data) with
      | Normal st' => Some st'
      | Throw _ => (* console.error *) Some st
      end
  end.

(** [clearChat()]: the new [messages] and [durations] states and the
    environment after saving them. *)
Definition clearChat (w : env) : value * value * env :=
  let newMessages := VArr [] in
  let newDurations := VObj [] in
  (newMessages, newDurations, saveMessagesToStorage w newMessages newDurations).


(** An array index: the canonical decimal text of an integer below
    [2^32 - 1]. *)
Definition is_array_index (k : string) : bool :=
  match list_ascii_of_string k with
  | [] => false
  | [c] => is_digit c
  | (c :: _ :: _) as ds =>
      negb (Ascii.eqb c "0"%char) && forallb is_digit ds
      && Z.ltb (digits_to_Z ds) 4294967295
  end.

(** A new property in an object's key order (OrdinaryOwnPropertyKeys): array
    indices first, ascending, then the other keys in creation order. *)
Fixpoint insert_index (ps : js_object) (k : string) (v : value) : js_object :=
  match ps with
  | [] => [(k, v)]
  | (k', v') :: ps' =>
      if is_array_index k'
         && Z.ltb (digits_to_Z (list_ascii_of_string k')) (digits_to_Z (list_ascii_of_string k))
      then (k', v') :: insert_index ps' k v
      else (k, v) :: ps
  end.

Definition add_property (ps : js_object) (k : string) (v : value) : js_object :=
  if is_array_index k then insert_index ps k v else (ps ++ [(k, v)])%list.

(** The own properties after [o[k] = v] on a plain object of data
    properties ([[Set]]): an own property takes the new value in place;
    [__proto__] otherwise reaches the accessor of [Object.prototype], which
    creates no own property (it ignores a value that is not an object); any
    other key becomes a new property. *)
Definition js_set (ps : js_object) (k : string) (v : value) : js_object :=
  if existsb (String.eqb k) (keys ps) then obj_set ps k v
  else if String.eqb k "__proto__" then ps
  else add_property ps k v.

(** The state update of [handleDurationChange(key, duration)]:
    [next = { ...prev }; next[key] = duration]. *)
Definition handleDurationChange (prev : js_object) (key : string) (duration : num) : js_object :=
  let next := prev in
  js_set next key (VNum duration).

End Storage.

(** ** JSON data and its equality *)
Module JsonData.
Import Js.

(** Two decimals denote the same number. *)
Definition num_eq (a b : num) : Prop :=
  let e := Z.min (exp10 a) (exp10 b) in
  (mant a * 10 ^ (exp10 a - e) = mant b * 10 ^ (exp10 b - e))%Z.

(** Values that JSON can carry: no [undefined] anywhere, and no object with a
    repeated property name. *)
Inductive json_data : value -> Prop :=
| jd_null : json_data VNull
| jd_bool b : json_data (VBool b)
| jd_num n : json_data (VNum n)
| jd_str s : json_data (VStr s)
| jd_arr l : Forall json_data l -> json_data (VArr l)
| jd_obj ps : NoDup (map fst ps) -> Forall (fun kv => json_data (snd kv)) ps -> json_data (VObj ps).

(** The same JSON value: numbers compared by the number they denote, objects
    by their members in order. *)
Inductive json_eq : value -> value -> Prop :=
| je_undefined : json_eq VUndefined VUndefined
| je_null : json_eq VNull VNull
| je_bool b : json_eq (VBool b) (VBool b)
| je_num a b : num_eq a b -> json_eq (VNum a) (VNum b)
| je_str s : json_eq (VStr s) (VStr s)
| je_arr l l' : Forall2 json_eq l l' -> json_eq (VArr l) (VArr l')
| je_obj ps qs :
    Forall2 (fun kv kw => fst kv = fst kw /\ json_eq (snd kv) (snd kw)) ps qs ->
    json_eq (VObj ps) (VObj qs).

End JsonData.

(** ** The text of JSON data

    The pieces of the serialized text the round-trip proofs reason about. *)
Module JsonText.
Import Js JsonData.
Local Open Scope list_scope.

(** The bytes of a string. *)
Abbreviation lac := list_ascii_of_string.

(** One step of [digits_to_Z]. *)
Definition dstep (acc : Z) (c : ascii) : Z :=
  match digit_val c with Some d => (10 * acc + d)%Z | None => acc end.

(** The four stages of [p_number], each as it is written there: the sign,
    the integer part, the fraction and the exponent. *)
Definition pn_sign (l : list ascii) : bool * list ascii :=
  match l with
  | c :: r => if Ascii.eqb c "-"%char then (true, r) else (false, l)
  | [] => (false, l)
  end.

Definition pn_int (l1 : list ascii) : option (list ascii * list ascii) :=
  match l1 with
  | c :: r =>
      if Ascii.eqb c "0"%char then Some ([c], r)
      else if is_digit c then Some (take_digits l1)
      else None
  | [] => None
  end.

Definition pn_frac (l2 : list ascii) : option (list ascii * list ascii) :=
  match l2 with
  | c :: r =>
      if Ascii.eqb c "."%char then
        match take_digits r with
        | ([], _) => None
        | (fds, r') => Some (fds, r')
        end
      else Some ([], l2)
  | [] => Some ([], l2)
  end.

Definition pn_exp (l3 : list ascii) : option (Z * list ascii) :=
  match l3 with
  | c :: r =>
      if Ascii.eqb c "e"%char || Ascii.eqb c "E"%char then
        let (eneg, r1) :=
          match r with
          | s :: r' => if Ascii.eqb s "-"%char then (true, r')
                       else if Ascii.eqb s "+"%char then (false, r')
                       else (false, r)
          | [] => (false, r)
          end in
        match take_digits r1 with
        | ([], _) => None
        | (eds, r2) =>
            let e := digits_to_Z eds in
            Some (if eneg then (- e)%Z else e, r2)
        end
      else Some (0%Z, l3)
  | [] => Some (0%Z, l3)
  end.

(** A list of decimal digits. *)
Abbreviation digits := (Forall (fun c => is_digit c = true)).

(** A text that ends a number. *)
Definition num_stop (l : list ascii) : Prop :=
  match l with
  | [] => True
  | c :: _ => is_digit c = false /\ c <> "."%char /\ c <> "e"%char /\ c <> "E"%char
  end.

(** A well-formed integer part: [0], or a non-zero digit and more digits. *)
Definition int_ok (ids : list ascii) : Prop :=
  ids = ["0"%char] \/ exists c r, ids = c :: r /\ c <> "0"%char /\ digits ids.

(** The fraction part [.fds] as [JSON.stringify] writes it (nothing for no
    fraction digits). *)
Definition frac_text (fds : list ascii) : list ascii :=
  match fds with [] => [] | _ :: _ => "."%char :: fds end.

(** The exponent part [e+ds] or [e-ds]. *)
Definition exp_text (neg : bool) (eds : list ascii) : list ascii :=
  "e"%char :: (if neg then "-"%char else "+"%char) :: eds.

(** An optional exponent part, its value, and its well-formedness. *)
Definition exp_part (ex : option (bool * list ascii)) : list ascii :=
  match ex with None => [] | Some (n, eds) => exp_text n eds end.

Definition exp_val (ex : option (bool * list ascii)) : Z :=
  match ex with
  | None => 0%Z
  | Some (n, eds) => if n then (- digits_to_Z eds)%Z else digits_to_Z eds
  end.

Definition exp_ok (ex : option (bool * list ascii)) : Prop :=
  match ex with None => True | Some (_, eds) => digits eds /\ eds <> [] end.

(** The text [JSON.stringify] gives for a value ([null] stands for the
    [undefined] result, which never occurs on JSON data). *)
Definition str (v : value) : string :=
  match JSON_stringify v with Some t => t | None => "null" end.

(** A member ["k":v] of a serialized object. *)
Definition mstr (kv : string * value) : string := (quote (fst kv) ++ ":" ++ str (snd kv))%string.

(** The members of a serialized object, as [JSON.stringify] writes them
    (members whose value serializes to nothing are skipped). *)
Fixpoint obj_members (ps : js_object) : list string :=
  match ps with
  | [] => []
  | (k, x) :: ps' =>
      match JSON_stringify x with
      | Some t => (quote k ++ ":" ++ t)%string :: obj_members ps'
      | None => obj_members ps'
      end
  end.

(** Parsing the text of a JSON datum with [f] fuel, followed by any text
    that ends a number, gives back a datum equal to it and the rest. *)
Definition P_value (f : nat) : Prop :=
  forall v rest, json_data v -> length (lac (str v)) < f -> num_stop rest ->
  exists v', p_value f (lac (str v) ++ rest) = Some (v', rest) /\ json_eq v v'.

(** The stored text of a cleared chat. *)
Definition cleared_text : string :=
  stringify_object [("messages", VArr []); ("durations", VObj [])].

(** A visible ASCII character (not white space). *)
Definition visible (c : ascii) : Prop := 33 <= nat_of_ascii c <= 126.

End JsonText.

(** ** Vocabulary of the properties *)
Module Props.
Import Js Prompts.

(** [sub] occurs in [s]. *)
Definition contains (s sub : string) : Prop := exists a b, s = a ++ sub ++ b.

(** Decision procedure for [contains], used on concrete strings. *)
Fixpoint contains_b (s sub : string) : bool :=
  String.prefix sub s ||
  match s with
  | EmptyString => false
  | String _ s' => contains_b s' sub
  end.

Definition ends_with (s suf : string) : Prop := exists a, s = a ++ suf.

(** Content of the second message of a sequence. *)
Definition second_content (ms : list message) : string :=
  match ms with
  | _ :: m :: _ => content m
  | _ => EmptyString
  end.


(** Structural equality of option objects: the same fields, and objects with
    the same properties holding the same values, in any order. *)
Definition same_object (o1 o2 : option js_object) : Prop :=
  match o1, o2 with
  | None, None => True
  | Some p, Some q => Permutation p q
  | _, _ => False
  end.

(** The text a profile or session block is built from: the [JSON.stringify]
    text of an object with keys, nothing for an absent or empty object. *)
Definition block_text (o : option js_object) : option string :=
  match o with
  | Some p => if has_keys o then Some (stringify_object p) else None
  | None => None
  end.

Definition opts_struct_eq (o1 o2 : BuildMessagesOptions) : Prop :=
  userName o1 = userName o2 /\
  same_object (userProfile o1) (userProfile o2) /\
  same_object (sessionState o1) (sessionState o2) /\
  userMessage o1 = userMessage o2 /\
  requireJSONResponse o1 = requireJSONResponse o2 /\
  language o1 = language o2.

End Props.

(** ** Proofs *)
Module Proofs.
Import Js Prompts Props.

(** *** String positions *)

Lemma index_of_from_first_pos (c : ascii) (s : string) (i : Z) :
  index_of_from c (list_ascii_of_string s) i =
  match first_pos c s with Some k => (i + Z.of_nat k)%Z | None => (-1)%Z end.
Proof.
  revert i; induction s as [|d s IH]; intro i; simpl; [reflexivity|].
  destruct (Ascii.eqb c d); [lia|].
  rewrite IH; destruct (first_pos c s); simpl; [lia|reflexivity].
Qed.

Lemma last_index_of_from_last_pos (c : ascii) (s : string) (i best : Z) :
  last_index_of_from c (list_ascii_of_string s) i best =
  match last_pos c s with Some k => (i + Z.of_nat k)%Z | None => best end.
Proof.
  revert i best; induction s as [|d s IH]; intros i best; simpl; [reflexivity|].
  rewrite IH; destruct (last_pos c s); [lia|].
  destruct (Ascii.eqb c d); [lia|reflexivity].
Qed.

Lemma index_of_first_pos (s : string) (c : ascii) :
  index_of s c = match first_pos c s with Some k => Z.of_nat k | None => (-1)%Z end.
Proof. unfold index_of; rewrite index_of_from_first_pos; destruct (first_pos c s); lia. Qed.

Lemma last_index_of_last_pos (s : string) (c : ascii) :
  last_index_of s c = match last_pos c s with Some k => Z.of_nat k | None => (-1)%Z end.
Proof. unfold last_index_of; rewrite last_index_of_from_last_pos; destruct (last_pos c s); lia. Qed.

Lemma last_pos_lt (c : ascii) (s : string) (j : nat) :
  last_pos c s = Some j -> (j < String.length s)%nat.
Proof.
  revert j; induction s as [|d s IH]; intros j H; simpl in *; [discriminate|].
  destruct (last_pos c s) as [k|] eqn:E.
  - injection H as <-; specialize (IH k eq_refl); lia.
  - destruct (Ascii.eqb c d); [injection H as <-; lia | discriminate].
Qed.

Lemma js_substring_span (s : string) (i j : nat) :
  (i < j)%nat -> (j < String.length s)%nat ->
  js_substring s (Z.of_nat i) (Z.of_nat j + 1) = String.substring i (j - i + 1) s.
Proof.
  intros Hij Hj; unfold js_substring.
  replace (Z.min (Z.max (Z.of_nat i) 0) (Z.of_nat (String.length s))) with (Z.of_nat i) by lia.
  replace (Z.min (Z.max (Z.of_nat j + 1) 0) (Z.of_nat (String.length s))) with (Z.of_nat j + 1)%Z by lia.
  replace (Z.min (Z.of_nat i) (Z.of_nat j + 1)) with (Z.of_nat i) by lia.
  replace (Z.max (Z.of_nat i) (Z.of_nat j + 1)) with (Z.of_nat j + 1)%Z by lia.
  f_equal; lia.
Qed.

(** *** The extractor follows the specified algorithm *)

Lemma parseAssistantJson_spec (t : string) :
  parseAssistantJson (Some t) = Normal (spec_extract t).
Proof.
  unfold parseAssistantJson, parseAssistantJson_with, spec_extract.
  destruct (String.eqb t EmptyString) eqn:Et.
  { apply String.eqb_eq in Et; subst t; reflexivity. }
  set (tr := js_trim t).
  unfold try_block.
  destruct (starts_with tr "{" || starts_with tr "[").
  { destruct (JSON_parse tr); reflexivity. }
  rewrite index_of_first_pos, last_index_of_last_pos.
  destruct (first_pos "{"%char tr) as [i|] eqn:Ei;
  destruct (last_pos "}"%char tr) as [j|] eqn:Ej; simpl; try reflexivity.
  - destruct (Nat.ltb i j) eqn:Hij.
    + apply Nat.ltb_lt in Hij.
      replace (Z.of_nat i =? -1)%Z with false by lia.
      replace (Z.of_nat j =? -1)%Z with false by lia.
      replace (Z.of_nat i <? Z.of_nat j)%Z with true by lia.
      simpl. rewrite js_substring_span by (eauto using last_pos_lt).
      destruct (JSON_parse _); reflexivity.
    + apply Nat.ltb_ge in Hij.
      replace (Z.of_nat i <? Z.of_nat j)%Z with false by lia.
      rewrite !andb_false_r; reflexivity.
  - rewrite andb_false_r, andb_false_l; reflexivity.
Qed.

(** *** Substrings *)

Lemma str_app_assoc (a b c : string) : (a ++ b) ++ c = a ++ b ++ c.
Proof. induction a as [|x a IH]; simpl; [reflexivity | now rewrite IH]. Qed.

Lemma contains_refl (s : string) : contains s s.
Proof. exists EmptyString, EmptyString; simpl; induction s; simpl; congruence. Qed.

Lemma contains_app_l (s t sub : string) : contains s sub -> contains (s ++ t) sub.
Proof.
  intros (a & b & ->); exists a, (b ++ t).
  now rewrite !str_app_assoc.
Qed.

Lemma contains_app_r (s t sub : string) : contains t sub -> contains (s ++ t) sub.
Proof. intros (a & b & ->); exists (s ++ a), b; now rewrite !str_app_assoc. Qed.

Lemma ends_with_refl (s : string) : ends_with s s.
Proof. now exists EmptyString. Qed.

Lemma ends_with_app_r (s t suf : string) : ends_with t suf -> ends_with (s ++ t) suf.
Proof. intros (a & ->); exists (s ++ a); now rewrite str_app_assoc. Qed.

(** Locate a syntactic piece of a concatenation. *)
Ltac find_piece :=
  first [ apply contains_refl
        | apply contains_app_l; find_piece
        | apply contains_app_r; find_piece ].

Ltac find_suffix :=
  first [ apply ends_with_refl | apply ends_with_app_r; find_suffix ].

Lemma prefix_app (sub b : string) : String.prefix sub (sub ++ b) = true.
Proof.
  induction sub as [|x sub IH]; simpl; [destruct b; reflexivity|].
  destruct (ascii_dec x x); [exact IH | congruence].
Qed.

Lemma prefix_sound (sub s : string) : String.prefix sub s = true -> exists b, s = sub ++ b.
Proof.
  revert s; induction sub as [|x sub IH]; intros s H.
  - now exists s.
  - destruct s as [|y s]; [discriminate|].
    simpl in H; destruct (ascii_dec x y) as [Exy|]; [subst y|discriminate].
    destruct (IH s H) as (b & Hb); exists b; simpl; now rewrite Hb.
Qed.


Lemma contains_b_complete (s sub : string) : contains s sub -> contains_b s sub = true.
Proof.
  intros (a & b & ->); induction a as [|x a IH].
  - cbn [append].
    assert (Hu : forall t, String.prefix sub t = true -> contains_b t sub = true)
      by (intros [|y t] Ht; cbn [contains_b]; rewrite Ht; reflexivity).
    apply Hu, prefix_app.
  - cbn [contains_b append]; rewrite IH, orb_true_r; reflexivity.
Qed.

(** *** Shape of the message sequence *)

Lemma buildMessages_shape (cfg : config) (opts : BuildMessagesOptions) :
  buildMessages cfg opts =
  ([Msg system (SYSTEM_PROMPT cfg); Msg system (second_content (buildMessages cfg opts))]
     ++ fewShotExamples ++ [Msg user (userMessage opts)])%list.
Proof. reflexivity. Qed.

(** The session-context message, term by term as the source builds it. *)
Lemma second_content_buildMessages (cfg : config) (opts : BuildMessagesOptions) :
  second_content (buildMessages cfg opts) =
  "Context for this session:" ++ nl ++
  "User display name: " ++ opt_default "User" (userName opts) ++ "." ++ nl ++
  (match userProfile opts with
   | Some p => if has_keys (userProfile opts) then "User profile: " ++ stringify_object p ++ "."
               else "User profile: Not provided."
   | None => "User profile: Not provided."
   end) ++
  nl ++
  (match sessionState opts with
   | Some q => if has_keys (sessionState opts) then "Session state: " ++ stringify_object q ++ "."
               else "Session state: Not provided."
   | None => "Session state: Not provided."
   end) ++
  nl ++ "Assistant response language: " ++ opt_default "English" (language opts) ++ "." ++
  (if opt_default true (requireJSONResponse opts)
   then nl ++ nl ++ "IMPORTANT: Respond with ONLY valid JSON using the schema in the system prompt. Do NOT include any extra explanatory text."
   else nl ++ nl ++ "You may respond in natural " ++ opt_default "English" (language opts)
          ++ dq " text. If helpful, include a short JSON payload labeled `assistant_payload`.").
Proof. reflexivity. Qed.

Lemma fewShotExamples_roles :
  map role fewShotExamples = [user; assistant; user; assistant; user; assistant].
Proof. reflexivity. Qed.

(** *** Claims about buildMessages *)

(** C1: the result is the fixed system prompt, one session-context system
    message, the six few-shot turns (user/assistant pairs, in order), and
    the live user message; nine messages, first [system], last [user] with
    content [userMessage]. *)
Theorem buildMessages_layout (cfg : config) (opts : BuildMessagesOptions) :
  (exists ctx,
     buildMessages cfg opts =
     ([Msg system (SYSTEM_PROMPT cfg); Msg system ("Context for this session:" ++ nl ++ ctx)]
        ++ fewShotExamples ++ [Msg user (userMessage opts)])%list) /\
  map role fewShotExamples = [user; assistant; user; assistant; user; assistant] /\
  length (buildMessages cfg opts) = 9%nat /\
  option_map role (hd_error (buildMessages cfg opts)) = Some system /\
  last (buildMessages cfg opts) (Msg system EmptyString) = Msg user (userMessage opts).
Proof.
  split; [|split; [exact fewShotExamples_roles|split; [|split]]].
  - eexists; reflexivity.
  - rewrite buildMessages_shape; reflexivity.
  - rewrite buildMessages_shape; reflexivity.
  - rewrite buildMessages_shape; reflexivity.
Qed.

(** C6: [buildMessages] is total: for every input, also an empty or blank
    [userMessage], it returns the nine-message sequence ending in the user
    message; no [InvalidRequest] is raised. *)
Theorem buildMessages_total (cfg : config) (opts : BuildMessagesOptions) :
  exists ms, buildMessages cfg opts = ms /\ length ms = 9%nat /\
             nth 0 (map role ms) user = system /\
             last ms (Msg system EmptyString) = Msg user (userMessage opts).
Proof.
  exists (buildMessages cfg opts); split; [reflexivity|].
  rewrite buildMessages_shape; repeat split; reflexivity.
Qed.

(** C9: an omitted [userName] is ['User'], an omitted [requireJSONResponse]
    is [true] (the second message then ends with the JSON-only instruction),
    an omitted [language] is ['English']. *)
Theorem buildMessages_defaults (cfg : config) (un : option string)
  (up : option UserProfile) (ss : option SessionState) (m : string)
  (rj : option bool) (lang : option string) :
  buildMessages cfg (Opts None up ss m rj lang) = buildMessages cfg (Opts (Some "User") up ss m rj lang) /\
  buildMessages cfg (Opts un up ss m None lang) = buildMessages cfg (Opts un up ss m (Some true) lang) /\
  buildMessages cfg (Opts un up ss m rj None) = buildMessages cfg (Opts un up ss m rj (Some "English")) /\
  ends_with (second_content (buildMessages cfg (Opts un up ss m None lang)))
    ("IMPORTANT: Respond with ONLY valid JSON using the schema in the system prompt. Do NOT include any extra explanatory text.") /\
  contains (second_content (buildMessages cfg (Opts None up ss m rj lang))) "User display name: User." /\
  contains (second_content (buildMessages cfg (Opts un up ss m rj None))) "Assistant response language: English.".
Proof.
  split; [reflexivity|split; [reflexivity|split; [reflexivity|split; [|split]]]].
  - rewrite second_content_buildMessages; cbn [requireJSONResponse opt_default]; find_suffix.
  - rewrite second_content_buildMessages; cbn [userName opt_default].
    apply contains_app_r, contains_app_r.
    exists EmptyString; eexists; reflexivity.
  - rewrite second_content_buildMessages; cbn [language opt_default].
    do 10 apply contains_app_r.
    exists EmptyString; eexists; reflexivity.
Qed.

(** C10: a profile (session state) that is an object without keys gives the
    same output as an omitted one. *)
Theorem buildMessages_empty_object (cfg : config) (un : option string)
  (up : option UserProfile) (ss : option SessionState) (m : string)
  (rj : option bool) (lang : option string) :
  buildMessages cfg (Opts un (Some []) ss m rj lang) = buildMessages cfg (Opts un None ss m rj lang) /\
  buildMessages cfg (Opts un up (Some []) m rj lang) = buildMessages cfg (Opts un up None m rj lang).
Proof. split; reflexivity. Qed.

(** *** Claims about parseAssistantJson *)

(** The recovered value of the prose example of the specification. *)
Definition prose_example : string :=
  dq "Sure! {`intent`:`get_snapshot`,`data`:{`today_kcal_consumed`:500}} Let me know if you need more.".

(** C2: [parseAssistantJson] is the three-step algorithm of the
    specification ([spec_extract]) on every text, and recovers the object
    embedded in the prose example, with [data.today_kcal_consumed === 500]. *)
Theorem parseAssistantJson_algorithm :
  (forall t : string, parseAssistantJson (Some t) = Normal (spec_extract t)) /\
  exists v, parseAssistantJson (Some prose_example) = Normal (Some v) /\
            get (get v "data") "today_kcal_consumed" = int 500.
Proof.
  split; [exact parseAssistantJson_spec|].
  eexists; split; [vm_compute; reflexivity | reflexivity].
Qed.








(** *** Context blocks, the JSON instruction, determinism *)


(** A configuration and an input used by the concrete lemmas below. *)
Definition cfg0 : config := Config "NutriBuddy" "Owner" "2026-10-17".

(** C7, as stated: a present profile is always serialized into the second
    message.  False: an empty profile object [{}] is present but the message
    holds the placeholder, not ["User profile: {}."]. *)
Lemma context_blocks_counterexample :
  ~ (forall (cfg : config) (opts : BuildMessagesOptions) (p : UserProfile),
        userProfile opts = Some p ->
        contains (second_content (buildMessages cfg opts))
                 ("User profile: " ++ stringify_object p ++ ".")).
Proof.
  intro H.
  specialize (H cfg0 (Opts None (Some []) None "hi" None None) [] eq_refl).
  apply contains_b_complete in H; vm_compute in H; discriminate.
Qed.

(** C7 (amended): an absent or key-less profile (session state) gives the
    placeholder ["User profile: Not provided."] (["Session state: Not
    provided."]); a profile (session state) with at least one key is
    serialized with [JSON.stringify] into the second message. *)
Theorem context_blocks (cfg : config) (opts : BuildMessagesOptions) :
  ((userProfile opts = None \/ userProfile opts = Some []) ->
     contains (second_content (buildMessages cfg opts)) "User profile: Not provided.") /\
  (forall p, userProfile opts = Some p -> p <> [] ->
     contains (second_content (buildMessages cfg opts))
              ("User profile: " ++ stringify_object p ++ ".")) /\
  ((sessionState opts = None \/ sessionState opts = Some []) ->
     contains (second_content (buildMessages cfg opts)) "Session state: Not provided.") /\
  (forall q, sessionState opts = Some q -> q <> [] ->
     contains (second_content (buildMessages cfg opts))
              ("Session state: " ++ stringify_object q ++ ".")).
Proof.
  rewrite second_content_buildMessages.
  destruct opts as [un up ss m rj lang]; cbn [userProfile sessionState].
  split; [|split; [|split]].
  - intros [-> | ->]; cbn [has_keys keys map length Nat.eqb negb]; find_piece.
  - intros p -> Hp; destruct p as [|kv p]; [congruence|].
    cbn [has_keys keys map length Nat.eqb negb]; find_piece.
  - intros [-> | ->]; cbn [has_keys keys map length Nat.eqb negb]; find_piece.
  - intros q -> Hq; destruct q as [|kv q]; [congruence|].
    cbn [has_keys keys map length Nat.eqb negb]; find_piece.
Qed.

Lemma context_blocks_witness :
  (Opts None (Some [("age", int 28)]) None "hi" None None).(userProfile) = Some [("age", int 28)] /\
  contains (second_content (buildMessages cfg0 (Opts None (Some [("age", int 28)]) None "hi" None None)))
           ("User profile: " ++ stringify_object [("age", int 28)] ++ ".").
Proof.
  split; [reflexivity|].
  apply (proj1 (proj2 (context_blocks cfg0 (Opts None (Some [("age", int 28)]) None "hi" None None))));
    [reflexivity | discriminate].
Defined.





(** Two inputs that differ only in the order of the profile's properties. *)
Definition profile_ab : UserProfile := [("name", VStr "Riya"); ("age", int 28)].
Definition profile_ba : UserProfile := [("age", int 28); ("name", VStr "Riya")].

(** C3, as stated: structurally equal inputs give equal outputs.  False: the
    two profiles above are structurally equal (same properties, same
    values), but [JSON.stringify] writes them in property order, so the
    session-context messages differ. *)
Lemma determinism_counterexample :
  ~ (forall (cfg : config) (o1 o2 : BuildMessagesOptions),
        opts_struct_eq o1 o2 -> buildMessages cfg o1 = buildMessages cfg o2).
Proof.
  intro H.
  assert (Heq : opts_struct_eq (Opts None (Some profile_ab) None "hi" None None)
                               (Opts None (Some profile_ba) None "hi" None None))
    by (repeat split; apply perm_swap).
  specialize (H cfg0 _ _ Heq).
  apply (f_equal second_content) in H; vm_compute in H; discriminate.
Qed.

(** A profile whose [name] is [undefined], in both property orders:
    [JSON.stringify] omits the property, so both serialize alike. *)
Definition profile_u_ab : UserProfile := [("name", VUndefined); ("age", int 28)].
Definition profile_u_ba : UserProfile := [("age", int 28); ("name", VUndefined)].

(** C3 (amended): two inputs give equal message sequences whenever they agree
    on [userMessage], on [userName], [requireJSONResponse] and [language]
    after their defaults, and on the [JSON.stringify] text of the profile
    and of the session state (when these have keys); messages 3 to 8 are the
    few-shot turns for every input.  Structural equality alone is not
    enough: reordering a profile's properties can change the output, though
    it need not. *)
Theorem determinism (cfg : config) :
  (forall o1 o2 : BuildMessagesOptions,
      opt_default "User" (userName o1) = opt_default "User" (userName o2) ->
      block_text (userProfile o1) = block_text (userProfile o2) ->
      block_text (sessionState o1) = block_text (sessionState o2) ->
      userMessage o1 = userMessage o2 ->
      opt_default true (requireJSONResponse o1) = opt_default true (requireJSONResponse o2) ->
      opt_default "English" (language o1) = opt_default "English" (language o2) ->
      buildMessages cfg o1 = buildMessages cfg o2) /\
  (forall o : BuildMessagesOptions, firstn 6 (skipn 2 (buildMessages cfg o)) = fewShotExamples) /\
  (exists o1 o2, opts_struct_eq o1 o2 /\ buildMessages cfg o1 <> buildMessages cfg o2) /\
  (exists o1 o2, opts_struct_eq o1 o2 /\ userProfile o1 <> userProfile o2 /\
                 buildMessages cfg o1 = buildMessages cfg o2).
Proof.
  assert (Hdet : forall o1 o2 : BuildMessagesOptions,
      opt_default "User" (userName o1) = opt_default "User" (userName o2) ->
      block_text (userProfile o1) = block_text (userProfile o2) ->
      block_text (sessionState o1) = block_text (sessionState o2) ->
      userMessage o1 = userMessage o2 ->
      opt_default true (requireJSONResponse o1) = opt_default true (requireJSONResponse o2) ->
      opt_default "English" (language o1) = opt_default "English" (language o2) ->
      buildMessages cfg o1 = buildMessages cfg o2).
  { intros o1 o2 Hn Hp Hs Hm Hr Hl.
    rewrite (buildMessages_shape cfg o1), (buildMessages_shape cfg o2).
    rewrite !second_content_buildMessages, Hn, Hm, Hr, Hl.
    revert Hp Hs.
    destruct (userProfile o1) as [p1|], (userProfile o2) as [p2|],
             (sessionState o1) as [q1|], (sessionState o2) as [q2|];
      unfold block_text;
      repeat match goal with |- context [has_keys ?x] => destruct (has_keys x) end;
      intros Hp Hs; try discriminate;
      try (assert (Ep : stringify_object p1 = stringify_object p2) by congruence; rewrite Ep);
      try (assert (Eq : stringify_object q1 = stringify_object q2) by congruence; rewrite Eq);
      reflexivity. }
  split; [exact Hdet|].
  split; [intros o; rewrite buildMessages_shape; reflexivity|].
  split.
  - exists (Opts None (Some profile_ab) None "hi" None None),
           (Opts None (Some profile_ba) None "hi" None None).
    split; [repeat split; apply perm_swap|].
    intros H. apply (f_equal second_content) in H.
    rewrite !second_content_buildMessages in H. vm_compute in H. discriminate.
  - exists (Opts None (Some profile_u_ab) None "hi" None None),
           (Opts None (Some profile_u_ba) None "hi" None None).
    split; [repeat split; apply perm_swap|].
    split; [discriminate|].
    apply Hdet; vm_compute; reflexivity.
Qed.

(** Two inputs that differ in every field but agree after defaults and
    serialization: [userName] omitted or ["User"], [requireJSONResponse]
    omitted or [true], and the age [28] written as [280e-1]. *)
Lemma determinism_witness :
  buildMessages cfg0 (Opts None (Some [("age", int 28)]) None "hi" None None)
  = buildMessages cfg0 (Opts (Some "User") (Some [("age", VNum (Num 280 (-1)))]) (Some [])
                             "hi" (Some true) (Some "English")).
Proof. apply (proj1 (determinism cfg0)); vm_compute; reflexivity. Defined.

(** *** The brace heuristic *)

(** An object whose string literal holds a [}] before the closing brace. *)
Definition brace_object : string := dq "{`fulfillment_text`:`Use } to close a block`}".
Definition brace_members : js_object := [("fulfillment_text", VStr "Use } to close a block")].

(** The [}] inside the literal alone does not defeat the heuristic: the same
    object between prose without braces is recovered. *)
Example brace_in_literal_recovered :
  parseAssistantJson (Some ("Sure! " ++ brace_object ++ " Anything else?")) =
  Normal (Some (VObj brace_members)).
Proof. vm_compute; reflexivity. Qed.

End Proofs.

(** ** Proofs about the rest of the code: the JSON round trip, chat
    persistence, the duration handler, and the extractor on well-formed
    replies *)
Module RoundTrip.
Import Js Prompts Props Storage JsonData JsonText Proofs.
Local Open Scope list_scope.

Lemma lac_app (a b : string) : lac (a ++ b)%string = lac a ++ lac b.
Proof. induction a as [|c a IH]; simpl; [reflexivity | now rewrite IH]. Qed.

Lemma lac_length (s : string) : length (lac s) = String.length s.
Proof. induction s; simpl; auto. Qed.

Lemma digits_to_Z_fold ds : digits_to_Z ds = fold_left dstep ds 0%Z.
Proof. reflexivity. Qed.

Lemma fold_dstep_acc ds acc :
  Forall (fun c => is_digit c = true) ds ->
  fold_left dstep ds acc = (acc * 10 ^ Z.of_nat (length ds) + fold_left dstep ds 0)%Z.
Proof.
  revert acc; induction ds as [|c ds IH]; intros acc Hd; cbn [fold_left length].
  - simpl. lia.
  - inversion Hd as [|? ? Hc Hds]; subst.
    unfold is_digit in Hc. unfold dstep at 2 4.
    destruct (digit_val c) as [d|]; [|discriminate].
    rewrite (IH (10 * acc + d)%Z Hds), (IH (10 * 0 + d)%Z Hds).
    rewrite Nat2Z.inj_succ, Z.pow_succ_r by lia. lia.
Qed.

Lemma digits_to_Z_app a b :
  Forall (fun c => is_digit c = true) b ->
  digits_to_Z (a ++ b) = (digits_to_Z a * 10 ^ Z.of_nat (length b) + digits_to_Z b)%Z.
Proof.
  intros Hb. rewrite !digits_to_Z_fold, fold_left_app. apply fold_dstep_acc, Hb.
Qed.

Lemma uint_digits d : Forall (fun c => is_digit c = true) (lac (NilEmpty.string_of_uint d)).
Proof. induction d; simpl; constructor; auto. Qed.

Lemma uint_fold_acc d (acc : positive) :
  fold_left dstep (lac (NilEmpty.string_of_uint d)) (Zpos acc) = Zpos (Pos.of_uint_acc d acc).
Proof.
  revert acc; induction d; intros acc;
    cbn [fold_left lac NilEmpty.string_of_uint Pos.of_uint_acc]; try reflexivity;
    rewrite <- IHd; f_equal; unfold dstep;
    match goal with |- context [digit_val ?c] =>
      let v := eval vm_compute in (digit_val c) in change (digit_val c) with v end;
    cbv iota beta; lia.
Qed.

Lemma uint_value d :
  digits_to_Z (lac (NilEmpty.string_of_uint d)) = Z.of_N (Pos.of_uint d).
Proof.
  rewrite digits_to_Z_fold.
  induction d; simpl; try reflexivity; try apply uint_fold_acc. exact IHd.
Qed.

Lemma digits_of_pos_value p : digits_to_Z (lac (digits_of_pos p)) = Zpos p.
Proof. unfold digits_of_pos. rewrite uint_value, DecimalPos.Unsigned.of_to. reflexivity. Qed.

Lemma digits_of_pos_digits p : Forall (fun c => is_digit c = true) (lac (digits_of_pos p)).
Proof. apply uint_digits. Qed.

Lemma nzhead_not_D0 d x : Decimal.nzhead d <> Decimal.D0 x.
Proof. induction d; simpl; congruence. Qed.

Lemma to_uint_head p : exists c r, lac (digits_of_pos p) = c :: r /\ is_digit c = true /\ c <> "0"%char.
Proof.
  unfold digits_of_pos.
  assert (Hto : Pos.to_uint p = Decimal.unorm (Pos.to_uint p)).
  { rewrite <- DecimalPos.Unsigned.to_of, DecimalPos.Unsigned.of_to. reflexivity. }
  pose proof (DecimalPos.Unsigned.to_uint_nonzero p) as Hnz.
  pose proof (DecimalPos.Unsigned.to_uint_nonnil p) as Hnn.
  destruct (Pos.to_uint p) as [|u|u|u|u|u|u|u|u|u|u] eqn:E;
    try (eexists; eexists; split; [reflexivity | split; [reflexivity | discriminate]]).
  - congruence.
  - exfalso. unfold Decimal.unorm in Hto. simpl in Hto.
    destruct (Decimal.nzhead u) eqn:Ez; try discriminate.
    + inversion Hto; subst. apply Hnz. reflexivity.
    + eapply nzhead_not_D0. exact Ez.
Qed.

Lemma p_number_split l :
  p_number l =
  let (neg, l1) := pn_sign l in
  match pn_int l1 with
  | None => None
  | Some (ids, l2) =>
      match pn_frac l2 with
      | None => None
      | Some (fds, l3) =>
          match pn_exp l3 with
          | None => None
          | Some (e, l4) =>
              let m := digits_to_Z (ids ++ fds) in
              Some (Num (if neg then (- m)%Z else m) (e - Z.of_nat (length fds))%Z, l4)
          end
      end
  end.
Proof. reflexivity. Qed.

Lemma take_digits_app ds r :
  digits ds -> (match r with [] => True | c :: _ => is_digit c = false end) ->
  take_digits (ds ++ r) = (ds, r).
Proof.
  intros Hd Hr. induction Hd as [|c ds Hc Hds IH]; simpl.
  - destruct r as [|c r]; simpl; [reflexivity|]. now rewrite Hr.
  - now rewrite Hc, IH.
Qed.

Lemma is_digit_cases c : is_digit c = true ->
  c = "0"%char \/ c = "1"%char \/ c = "2"%char \/ c = "3"%char \/ c = "4"%char \/
  c = "5"%char \/ c = "6"%char \/ c = "7"%char \/ c = "8"%char \/ c = "9"%char.
Proof.
  destruct c as [[] [] [] [] [] [] [] []]; vm_compute; intros H;
    first [discriminate | tauto].
Qed.

Lemma pn_int_ok ids r :
  int_ok ids -> (match r with [] => True | c :: _ => is_digit c = false end) ->
  pn_int (ids ++ r) = Some (ids, r).
Proof.
  intros [-> | (c & r' & -> & Hc0 & Hd)] Hr; [reflexivity|].
  simpl app. unfold pn_int.
  rewrite <- Ascii.eqb_neq in Hc0. rewrite Hc0.
  inversion Hd as [|? ? Hc Hds]; subst. rewrite Hc.
  rewrite <- (take_digits_app (c :: r') r) by assumption. reflexivity.
Qed.

Lemma pn_frac_ok fds r :
  digits fds ->
  (match r with [] => True | c :: _ => is_digit c = false /\ c <> "."%char end) ->
  pn_frac (frac_text fds ++ r) = Some (fds, r).
Proof.
  intros Hd Hr. destruct fds as [|c fds].
  - destruct r as [|c r]; [reflexivity|]. simpl. destruct Hr as [_ Hr].
    rewrite <- Ascii.eqb_neq in Hr. now rewrite Hr.
  - unfold frac_text, pn_frac. cbn -[take_digits].
    change (c :: fds ++ r) with ((c :: fds) ++ r).
    rewrite (take_digits_app (c :: fds) r); [reflexivity | exact Hd |].
    destruct r; [exact I | apply Hr].
Qed.

Lemma pn_exp_ok neg eds r :
  digits eds -> eds <> [] ->
  (match r with [] => True | c :: _ => is_digit c = false end) ->
  pn_exp (exp_text neg eds ++ r) =
  Some ((if neg then - digits_to_Z eds else digits_to_Z eds)%Z, r).
Proof.
  intros Hd Hne Hr. unfold exp_text. cbn [app].
  unfold pn_exp. cbn [Ascii.eqb orb].
  destruct neg; cbn -[take_digits digits_to_Z];
    rewrite take_digits_app by assumption;
    destruct eds; [congruence| reflexivity | congruence | reflexivity].
Qed.

Lemma pn_exp_none r :
  (match r with [] => True | c :: _ => c <> "e"%char /\ c <> "E"%char end) ->
  pn_exp r = Some (0%Z, r).
Proof.
  destruct r as [|c r]; [reflexivity|]. intros [H1 H2].
  rewrite <- Ascii.eqb_neq in H1, H2. simpl. now rewrite H1, H2.
Qed.

Lemma int_ok_head ids : int_ok ids -> exists c r, ids = c :: r /\ is_digit c = true.
Proof.
  intros [-> | (c & r & -> & _ & Hd)].
  - eexists; eexists; split; reflexivity.
  - inversion Hd; subst. eauto.
Qed.

Lemma p_number_ok (neg : bool) ids fds ex rest :
  int_ok ids -> digits fds -> exp_ok ex -> num_stop rest ->
  p_number ((if neg then ["-"%char] else []) ++ ids ++ frac_text fds ++ exp_part ex ++ rest) =
  Some (Num (if neg then (- digits_to_Z (ids ++ fds))%Z else digits_to_Z (ids ++ fds))
            (exp_val ex - Z.of_nat (length fds))%Z, rest).
Proof.
  intros Hi Hf He Hr.
  rewrite p_number_split.
  assert (Hs : pn_sign ((if neg then ["-"%char] else []) ++ ids ++ frac_text fds ++ exp_part ex ++ rest)
               = (neg, ids ++ frac_text fds ++ exp_part ex ++ rest)).
  { destruct neg; [reflexivity|].
    destruct (int_ok_head ids Hi) as (c & r & -> & Hc).
    simpl. destruct (Ascii.eqb c "-"%char) eqn:E; [|reflexivity].
    apply Ascii.eqb_eq in E. subst. discriminate. }
  rewrite Hs; clear Hs.
  rewrite pn_int_ok; [| exact Hi |].
  2: { destruct fds; [|reflexivity]. destruct ex as [[n eds]|]; [reflexivity|].
       destruct rest; [exact I | apply Hr]. }
  rewrite pn_frac_ok; [| exact Hf |].
  2: { destruct ex as [[n eds]|]; [split; [reflexivity | discriminate]|].
       destruct rest; [exact I | split; apply Hr]. }
  destruct ex as [[n eds]|]; simpl exp_part.
  - destruct He as [Hd Hne]. rewrite pn_exp_ok; [reflexivity | exact Hd | exact Hne |].
    destruct rest; [exact I | apply Hr].
  - rewrite pn_exp_none; [reflexivity|]. destruct rest; [exact I | split; apply Hr].
Qed.

Lemma normalize_spec fuel m e :
  let (m', e') := normalize fuel m e in
  (m = m' * 10 ^ (e' - e))%Z /\ (e <= e')%Z /\ (0 < m -> 0 < m')%Z.
Proof.
  revert m e; induction fuel as [|f IH]; intros m e; simpl.
  - rewrite Z.sub_diag. simpl. lia.
  - destruct (Z.eqb (m mod 10) 0) eqn:E; [|rewrite Z.sub_diag; simpl; lia].
    apply Z.eqb_eq in E.
    specialize (IH (m / 10)%Z (e + 1)%Z). destruct (normalize f (m / 10) (e + 1)) as [m' e'].
    destruct IH as (H1 & H2 & H3).
    pose proof (Z.div_mod m 10) as Hdm.
    replace (e' - e)%Z with (Z.succ (e' - (e + 1)))%Z by lia.
    rewrite Z.pow_succ_r by lia. split; [|split]; [nia | lia | nia].
Qed.

Lemma num_eq_same_value m a b x y :
  (0 <= a)%Z -> (0 <= b)%Z -> (a + x = b + y)%Z ->
  num_eq (Num (m * 10 ^ a) x) (Num (m * 10 ^ b) y).
Proof.
  intros Ha Hb Hxy. unfold num_eq; simpl.
  pose proof (Z.le_min_l x y). pose proof (Z.le_min_r x y).
  rewrite <- !Z.mul_assoc, <- !Z.pow_add_r by lia.
  do 2 f_equal. lia.
Qed.

Lemma num_eq_plain m b x y :
  (0 <= b)%Z -> (x = b + y)%Z -> num_eq (Num m x) (Num (m * 10 ^ b) y).
Proof.
  intros Hb Hxy. pose proof (num_eq_same_value m 0 b x y) as H.
  rewrite Z.pow_0_r, Z.mul_1_r in H. apply H; lia.
Qed.

Lemma num_eq_neg a b : num_eq a b -> num_eq (Num (- mant a) (exp10 a)) (Num (- mant b) (exp10 b)).
Proof. unfold num_eq; simpl. lia. Qed.

Lemma lac_substring a b s :
  lac (String.substring a b s) = firstn b (skipn a (lac s)).
Proof.
  revert a b; induction s as [|c s IH]; intros a b.
  - destruct a, b; reflexivity.
  - destruct a as [|a]; destruct b as [|b]; simpl; try reflexivity.
    + rewrite IH. simpl. reflexivity.
    + rewrite IH. reflexivity.
    + rewrite IH. reflexivity.
Qed.

Lemma lac_zeros j : lac (zeros j) = repeat "0"%char j.
Proof. induction j; simpl; congruence. Qed.

Lemma repeat_zero_digits j : digits (repeat "0"%char j).
Proof. induction j; simpl; constructor; auto. Qed.

Lemma repeat_zero_value j : digits_to_Z (repeat "0"%char j) = 0%Z.
Proof.
  rewrite digits_to_Z_fold. induction j; simpl; [reflexivity|]. exact IHj.
Qed.

Lemma digits_of_Z_spec z :
  digits (lac (digits_of_Z z)) /\ lac (digits_of_Z z) <> [] /\
  digits_to_Z (lac (digits_of_Z z)) = Z.abs z.
Proof.
  unfold digits_of_Z. destruct (Z.abs z) eqn:E.
  - simpl. split; [constructor; [reflexivity | constructor]|]. split; [discriminate | reflexivity].
  - destruct (to_uint_head p) as (c & r & Hcr & _).
    split; [apply digits_of_pos_digits|]. split; [rewrite Hcr; discriminate|].
    apply digits_of_pos_value.
  - pose proof (Z.abs_nonneg z). lia.
Qed.

Lemma digits_app a b : digits a -> digits b -> digits (a ++ b).
Proof. intros; apply Forall_app; auto. Qed.

(** The text of a positive number, split into the parts of the JSON grammar. *)
Lemma pos_num_to_string_shape m e : (0 < m)%Z ->
  exists ids fds ex,
    lac (pos_num_to_string m e) = ids ++ frac_text fds ++ exp_part ex /\
    int_ok ids /\ digits fds /\ exp_ok ex /\
    num_eq (Num (digits_to_Z (ids ++ fds)) (exp_val ex - Z.of_nat (length fds))) (Num m e).
Proof.
  intros Hm. unfold pos_num_to_string.
  pose proof (normalize_spec (String.length (digits_of_Z m)) m e) as Hn.
  destruct (normalize (String.length (digits_of_Z m)) m e) as [m' e'].
  destruct Hn as (Hmm & Hee & Hpos). specialize (Hpos Hm).
  destruct m' as [|p|p]; try lia.
  assert (Hs : digits_of_Z (Z.pos p) = digits_of_pos p) by reflexivity.
  rewrite Hs; clear Hs.
  destruct (to_uint_head p) as (c & S' & HS & Hc & Hc0).
  pose proof (digits_of_pos_digits p) as HSd. pose proof (digits_of_pos_value p) as HSv.
  rewrite HS in HSd, HSv.
  rewrite <- lac_length. rewrite HS.
  set (k := length (c :: S')) in *.
  assert (Hk : (1 <= k)%nat) by (subst k; simpl; lia).
  subst m.
  destruct ((Z.of_nat k <=? Z.of_nat k + e') && (Z.of_nat k + e' <=? 21))%Z eqn:B1.
  { (* digits followed by zeros *)
    apply andb_true_iff in B1. destruct B1 as [B1 _]. apply Z.leb_le in B1.
    exists ((c :: S') ++ repeat "0"%char (Z.to_nat (Z.of_nat k + e' - Z.of_nat k))), [], None.
    split; [rewrite lac_app, HS, lac_zeros; simpl; rewrite !app_nil_r; reflexivity|].
    split; [right; exists c; eexists; split; [reflexivity|split; [exact Hc0|]]|].
    { change (digits ((c :: S') ++ repeat "0"%char (Z.to_nat (Z.of_nat k + e' - Z.of_nat k)))).
      apply digits_app; [exact HSd | apply repeat_zero_digits]. }
    split; [constructor|]. split; [exact I|].
    rewrite app_nil_r, digits_to_Z_app by apply repeat_zero_digits.
    rewrite repeat_zero_value, repeat_length, HSv, Z2Nat.id by lia. simpl exp_val.
    rewrite Z.add_0_r. cbn [length Z.of_nat].
    apply num_eq_same_value; lia. }
  destruct ((0 <? Z.of_nat k + e') && (Z.of_nat k + e' <=? 21))%Z eqn:B2.
  { (* a decimal point inside the digits *)
    apply andb_true_iff in B2. destruct B2 as [B2 B2']. apply Z.ltb_lt in B2. apply Z.leb_le in B2'.
    apply andb_false_iff in B1.
    assert (Hlt : (Z.of_nat k + e' < Z.of_nat k)%Z).
    { destruct B1 as [B1|B1]; apply Z.leb_gt in B1; lia. }
    set (n := Z.to_nat (Z.of_nat k + e')).
    assert (Hn1 : (1 <= n < k)%nat) by (subst n; lia).
    exists (firstn n (c :: S')), (skipn n (c :: S')), None.
    assert (Hsk : skipn n (c :: S') <> []).
    { intro E. apply (f_equal (@length ascii)) in E. rewrite length_skipn in E.
      change (length (c :: S')) with k in E. cbn [length] in E. lia. }
    split.
    { rewrite !lac_app, !lac_substring, HS. simpl skipn at 1.
      replace (Z.to_nat (Z.of_nat k - (Z.of_nat k + e'))) with (k - n)%nat by (subst n; lia).
      rewrite (@firstn_all2 ascii (k - n) (skipn n (c :: S'))) by (rewrite length_skipn; subst k; lia).
      destruct (skipn n (c :: S')) eqn:E; [contradiction|]. simpl. rewrite app_nil_r. reflexivity. }
    split.
    { right. destruct n as [|n']; [lia|]. simpl firstn. exists c, (firstn n' S').
      split; [reflexivity|]. split; [exact Hc0|].
      rewrite <- (firstn_skipn (S n') (c :: S')) in HSd. apply Forall_app in HSd. apply HSd. }
    split; [rewrite <- (firstn_skipn n (c :: S')) in HSd; apply Forall_app in HSd; apply HSd|].
    split; [exact I|].
    rewrite firstn_skipn, HSv. simpl exp_val. rewrite length_skipn.
    apply num_eq_plain; try lia. }
  destruct ((-6 <? Z.of_nat k + e') && (Z.of_nat k + e' <=? 0))%Z eqn:B3.
  { (* leading zeros after 0. *)
    apply andb_true_iff in B3. destruct B3 as [_ B3]. apply Z.leb_le in B3.
    set (j := Z.to_nat (- (Z.of_nat k + e'))).
    exists ["0"%char], (repeat "0"%char j ++ c :: S'), None.
    split.
    { rewrite !lac_app, lac_zeros, HS. simpl. rewrite app_nil_r.
      destruct j; reflexivity. }
    split; [left; reflexivity|].
    split; [apply digits_app; [apply repeat_zero_digits | exact HSd]|].
    split; [exact I|].
    rewrite app_assoc, digits_to_Z_app by exact HSd.
    change (["0"%char] ++ repeat "0"%char j) with (repeat "0"%char (S j)).
    rewrite repeat_zero_value, HSv. simpl exp_val.
    rewrite length_app, repeat_length.
    replace (0 * 10 ^ Z.of_nat (length (c :: S')) + Z.pos p)%Z with (Z.pos p) by lia.
    apply num_eq_plain; try lia. }
  (* exponential notation *)
  set (ex := (Z.of_nat k + e' - 1)%Z).
  destruct (digits_of_Z_spec ex) as (Hed & Hene & Hev).
  assert (Hsgn : forall t, lac ("e" ++ (if (0 <=? ex)%Z then "+" else "-") ++ t) =
                           exp_text (negb (0 <=? ex)%Z) (lac t)).
  { intros t. destruct (0 <=? ex)%Z; reflexivity. }
  assert (Hexv : exp_val (Some (negb (0 <=? ex)%Z, lac (digits_of_Z ex))) = ex).
  { simpl. rewrite Hev. destruct (0 <=? ex)%Z eqn:E; simpl.
    - apply Z.leb_le in E. lia.
    - apply Z.leb_gt in E. lia. }
  destruct (Z.of_nat k =? 1)%Z eqn:B4.
  - apply Z.eqb_eq in B4.
    exists (c :: S'), [], (Some (negb (0 <=? ex)%Z, lac (digits_of_Z ex))).
    split; [rewrite lac_app, HS, Hsgn; reflexivity|].
    split; [right; exists c, S'; auto|].
    split; [constructor|]. split; [split; assumption|].
    rewrite Hexv, app_nil_r, HSv. simpl length.
    apply num_eq_plain; subst ex; lia.
  - apply Z.eqb_neq in B4.
    exists [c], S', (Some (negb (0 <=? ex)%Z, lac (digits_of_Z ex))).
    assert (HS' : S' <> []) by (intro; subst S'; subst k; simpl in B4; lia).
    split.
    { rewrite lac_app, lac_app, lac_app, Hsgn, !lac_substring, HS. cbn [app firstn skipn].
      rewrite (@firstn_all2 ascii (Z.to_nat (Z.of_nat k - 1)) S') by (subst k; simpl length in *; lia).
      destruct S'; [contradiction|]. reflexivity. }
    split; [right; exists c, []; split; [reflexivity|split; [exact Hc0| constructor; auto]]|].
    split; [inversion HSd; assumption|]. split; [split; assumption|].
    rewrite Hexv. change ([c] ++ S') with (c :: S'). rewrite HSv.
    apply num_eq_plain; subst ex k; simpl length; lia.
Qed.

Lemma num_eq_sym a b : num_eq a b -> num_eq b a.
Proof. unfold num_eq. rewrite Z.min_comm. auto. Qed.

Lemma num_to_string_shape n :
  exists (neg : bool) ids fds ex,
    lac (num_to_string n) = (if neg then ["-"%char] else []) ++ ids ++ frac_text fds ++ exp_part ex /\
    int_ok ids /\ digits fds /\ exp_ok ex /\
    num_eq (Num (if neg then (- digits_to_Z (ids ++ fds))%Z else digits_to_Z (ids ++ fds))
                (exp_val ex - Z.of_nat (length fds))) n.
Proof.
  destruct n as [m e]. unfold num_to_string. cbn [mant exp10].
  destruct (m =? 0)%Z eqn:E0.
  - apply Z.eqb_eq in E0. subst m.
    exists false, ["0"%char], [], None. split; [reflexivity|].
    split; [left; reflexivity|]. split; [constructor|]. split; [exact I|].
    unfold num_eq; simpl. lia.
  - apply Z.eqb_neq in E0. destruct (m <? 0)%Z eqn:El.
    + apply Z.ltb_lt in El.
      destruct (pos_num_to_string_shape (- m) e) as (ids & fds & ex & Ht & Hi & Hf & He & Hq); [lia|].
      exists true, ids, fds, ex. split; [rewrite lac_app, Ht; reflexivity|].
      split; [exact Hi|]. split; [exact Hf|]. split; [exact He|].
      apply num_eq_neg in Hq. simpl in Hq. rewrite Z.opp_involutive in Hq. exact Hq.
    + apply Z.ltb_ge in El.
      destruct (pos_num_to_string_shape m e) as (ids & fds & ex & Ht & Hi & Hf & He & Hq); [lia|].
      exists false, ids, fds, ex. auto.
Qed.

Lemma p_value_number_dispatch f c r :
  c = "-"%char \/ is_digit c = true ->
  p_value (S f) (c :: r) = option_map (fun '(n, r') => (VNum n, r')) (p_number (c :: r)).
Proof.
  intros [-> | Hd]; [reflexivity|].
  apply is_digit_cases in Hd.
  repeat (destruct Hd as [-> | Hd]; [reflexivity|]). subst. reflexivity.
Qed.

Lemma num_round_trip f n rest :
  num_stop rest ->
  exists n', p_value (S f) (lac (num_to_string n) ++ rest) = Some (VNum n', rest) /\ num_eq n n'.
Proof.
  intros Hr.
  destruct (num_to_string_shape n) as (neg & ids & fds & ex & Ht & Hi & Hf & He & Hq).
  exists (Num (if neg then (- digits_to_Z (ids ++ fds))%Z else digits_to_Z (ids ++ fds))
              (exp_val ex - Z.of_nat (length fds))).
  split; [|apply num_eq_sym, Hq].
  rewrite Ht, <- !app_assoc.
  pose proof (p_number_ok neg ids fds ex rest Hi Hf He Hr) as Hp.
  try rewrite <- !app_assoc in Hp.
  destruct neg.
  - cbn [app]. rewrite p_value_number_dispatch by (left; reflexivity).
    change ("-"%char :: ids ++ frac_text fds ++ exp_part ex ++ rest)
      with (["-"%char] ++ ids ++ frac_text fds ++ exp_part ex ++ rest).
    rewrite Hp. reflexivity.
  - destruct (int_ok_head ids Hi) as (c & r & -> & Hc). cbn [app] in *.
    rewrite p_value_number_dispatch by (right; exact Hc).
    rewrite Hp. reflexivity.
Qed.

(** One byte of a string literal, as [QuoteJSONString] writes it, is read
    back by [p_chars]. *)
Lemma p_chars_quote_char c r acc :
  p_chars (lac (quote_chars [c]) ++ r) acc = p_chars r (c :: acc).
Proof.
  destruct c as [[] [] [] [] [] [] [] []]; reflexivity.
Qed.

Lemma lac_quote_chars_cons c l :
  lac (quote_chars (c :: l)) = lac (quote_chars [c]) ++ lac (quote_chars l).
Proof.
  cbn [quote_chars]. rewrite !lac_app. cbn [lac]. rewrite app_nil_r. reflexivity.
Qed.

Lemma p_chars_quote l acc r :
  p_chars (lac (quote_chars l) ++ dquote :: r) acc = Some (string_of_list_ascii (rev acc ++ l), r).
Proof.
  revert acc; induction l as [|c l IH]; intros acc.
  - simpl. rewrite app_nil_r. reflexivity.
  - rewrite lac_quote_chars_cons, <- app_assoc, p_chars_quote_char, IH.
    simpl. rewrite <- app_assoc. reflexivity.
Qed.

Lemma str_round_trip f s rest :
  p_value (S f) (lac (quote s) ++ rest) = Some (VStr s, rest).
Proof.
  unfold quote, str1. cbn [append list_ascii_of_string]. rewrite lac_app.
  cbn [list_ascii_of_string app]. rewrite <- app_assoc. cbn [app].
  cbn [p_value skip_ws].
  replace (is_json_ws dquote) with false by reflexivity.
  replace (Ascii.eqb dquote "{"%char) with false by reflexivity.
  replace (Ascii.eqb dquote "["%char) with false by reflexivity.
  replace (Ascii.eqb dquote dquote) with true by reflexivity.
  cbv iota beta.
  rewrite p_chars_quote. simpl. rewrite string_of_list_ascii_of_string. reflexivity.
Qed.

Lemma stringify_arr l : JSON_stringify (VArr l) = Some ("[" ++ String.concat "," (map str l) ++ "]")%string.
Proof. reflexivity. Qed.

Lemma stringify_obj ps : JSON_stringify (VObj ps) = Some ("{" ++ String.concat "," (obj_members ps) ++ "}")%string.
Proof. reflexivity. Qed.

Lemma stringify_defined v : v <> VUndefined -> JSON_stringify v = Some (str v).
Proof. intros H. unfold str. destruct v; simpl; try reflexivity; try congruence. destruct b; reflexivity. Qed.

Lemma obj_members_data ps :
  Forall (fun kv => json_data (snd kv)) ps -> obj_members ps = map mstr ps.
Proof.
  induction 1 as [|[k x] ps Hx Hps IH]; [reflexivity|].
  simpl. rewrite stringify_defined by (intro; subst; inversion Hx). f_equal. exact IH.
Qed.

Lemma str_obj ps :
  Forall (fun kv => json_data (snd kv)) ps ->
  str (VObj ps) = ("{" ++ String.concat "," (map mstr ps) ++ "}")%string.
Proof. intros H. unfold str. rewrite stringify_obj, obj_members_data by exact H. reflexivity. Qed.

Lemma str_arr l : str (VArr l) = ("[" ++ String.concat "," (map str l) ++ "]")%string.
Proof. reflexivity. Qed.

Lemma digit_char_facts c : is_digit c = true ->
  is_json_ws c = false /\ c <> "]"%char /\ c <> "}"%char /\ c <> "{"%char /\ c <> "["%char /\ c <> dquote.
Proof.
  intros H. apply is_digit_cases in H.
  repeat (destruct H as [-> | H]; [repeat split; discriminate|]). subst. repeat split; discriminate.
Qed.

Lemma str_head v : json_data v ->
  exists c r, lac (str v) = c :: r /\ is_json_ws c = false /\ c <> "]"%char /\ c <> "}"%char.
Proof.
  intros Hv. destruct Hv.
  - do 2 eexists; split; [reflexivity|]; repeat split; discriminate.
  - destruct b; do 2 eexists; (split; [reflexivity|]); repeat split; discriminate.
  - destruct (num_to_string_shape n) as (neg & ids & fds & ex & Ht & Hi & _).
    unfold str; simpl JSON_stringify; cbv iota. rewrite Ht. destruct neg.
    + do 2 eexists; split; [reflexivity|]; repeat split; discriminate.
    + destruct (int_ok_head ids Hi) as (c & r & -> & Hc).
      destruct (digit_char_facts c Hc) as (H1 & H2 & H3 & _).
      do 2 eexists; split; [reflexivity|]; auto.
  - unfold str, quote, str1. simpl JSON_stringify. cbv iota. cbn [append list_ascii_of_string].
    do 2 eexists; split; [reflexivity|]; repeat split; discriminate.
  - rewrite str_arr. do 2 eexists; split; [reflexivity|]; repeat split; discriminate.
  - rewrite str_obj by assumption. do 2 eexists; split; [reflexivity|]; repeat split; discriminate.
Qed.

Lemma lac_concat_cons x l : l <> [] ->
  lac (String.concat "," (x :: l)) = lac x ++ ","%char :: lac (String.concat "," l).
Proof. intros H. destruct l; [congruence|]. cbn [String.concat]. rewrite !lac_app. reflexivity. Qed.

Lemma skip_ws_nonws c r : is_json_ws c = false -> skip_ws (c :: r) = c :: r.
Proof. intros H. simpl. rewrite H. reflexivity. Qed.

Lemma obj_set_fresh acc k v : ~ In k (map fst acc) -> obj_set acc k v = acc ++ [(k, v)].
Proof.
  induction acc as [|[k' v'] acc IH]; intros Hn; [reflexivity|].
  simpl in *. destruct (String.eqb k k') eqn:E.
  - apply String.eqb_eq in E. subst. tauto.
  - rewrite IH by tauto. reflexivity.
Qed.

Lemma p_members_head g0 k v T acc :
  p_members (S g0) (lac (mstr (k, v)) ++ T) acc =
  match p_value g0 (lac (str v) ++ T) with
  | None => None
  | Some (v', r3) =>
      match skip_ws r3 with
      | d :: r4 =>
          if Ascii.eqb d ","%char then p_members g0 (skip_ws r4) (obj_set acc k v')
          else if Ascii.eqb d "}"%char then Some (VObj (obj_set acc k v'), r4)
          else None
      | [] => None
      end
  end.
Proof.
  unfold mstr, quote, str1. cbn [fst snd append list_ascii_of_string].
  rewrite !lac_app. cbn [list_ascii_of_string app]. rewrite <- !app_assoc. cbn [app].
  cbn [p_members].
  replace (Ascii.eqb dquote dquote) with true by reflexivity.
  rewrite p_chars_quote. cbn [rev app]. rewrite string_of_list_ascii_of_string.
  reflexivity.
Qed.

Lemma p_value_arr_open f0 X :
  p_value (S f0) ("["%char :: X) =
  match skip_ws X with
  | c' :: r' => if Ascii.eqb c' "]"%char then Some (VArr [], r') else p_elems f0 (skip_ws X) []
  | [] => None
  end.
Proof. reflexivity. Qed.

Lemma p_value_obj_open f0 X :
  p_value (S f0) ("{"%char :: X) =
  match skip_ws X with
  | c' :: r' => if Ascii.eqb c' "}"%char then Some (VObj [], r') else p_members f0 (skip_ws X) []
  | [] => None
  end.
Proof. reflexivity. Qed.

Lemma stop_comma : num_stop (","%char :: nil).
Proof. simpl. repeat split; discriminate. Qed.

Lemma num_stop_punct c r :
  c = ","%char \/ c = "]"%char \/ c = "}"%char -> num_stop (c :: r).
Proof. intros [-> | [-> | ->]]; simpl; repeat split; discriminate. Qed.

Lemma elems_round_trip g :
  (forall g', g' < g -> P_value g') ->
  forall l acc rest, Forall json_data l -> l <> [] ->
  length (lac (String.concat "," (map str l))) + 1 < g ->
  exists l', p_elems g (lac (String.concat "," (map str l)) ++ "]"%char :: rest) acc
             = Some (VArr (rev acc ++ l'), rest) /\ Forall2 json_eq l l'.
Proof.
  intros IHg l. revert g IHg.
  induction l as [|v l IH]; intros g IHg acc rest Hd Hne Hlen; [congruence|].
  inversion Hd as [|? ? Hv Hl]; subst.
  destruct g as [|g0]; [lia|].
  destruct l as [|w l'].
  - cbn [map String.concat] in *.
    destruct (IHg g0 ltac:(lia) v ("]"%char :: rest) Hv ltac:(lia) ltac:(apply num_stop_punct; auto))
      as (v' & Hp & Hq).
    cbn [p_elems]. rewrite Hp. cbn [skip_ws is_json_ws].
    exists [v']. split; [|constructor; [exact Hq | constructor]].
    simpl. reflexivity.
  - change (map str (v :: w :: l')) with (str v :: map str (w :: l')) in *.
    rewrite lac_concat_cons in * by discriminate.
    rewrite length_app in Hlen. cbn [length] in Hlen.
    rewrite <- app_assoc. cbn [app].
    destruct (IHg g0 ltac:(lia) v (","%char :: lac (String.concat "," (map str (w :: l'))) ++ "]"%char :: rest)
                Hv ltac:(lia) ltac:(apply num_stop_punct; auto)) as (v' & Hp & Hq).
    cbn [p_elems]. rewrite Hp.
    rewrite skip_ws_nonws by reflexivity.
    replace (Ascii.eqb ","%char ","%char) with true by reflexivity. cbv iota.
    destruct (IH g0 ltac:(intros; apply IHg; lia) (v' :: acc) rest Hl ltac:(discriminate) ltac:(lia))
      as (l'' & Hp' & Hq').
    rewrite Hp'. exists (v' :: l''). split.
    + simpl. rewrite <- app_assoc. reflexivity.
    + constructor; assumption.
Qed.

Lemma members_round_trip g :
  (forall g', g' < g -> P_value g') ->
  forall ps acc rest, Forall (fun kv => json_data (snd kv)) ps ->
  NoDup (map fst acc ++ map fst ps) -> ps <> [] ->
  length (lac (String.concat "," (map mstr ps))) + 1 < g ->
  exists qs, p_members g (lac (String.concat "," (map mstr ps)) ++ "}"%char :: rest) acc
             = Some (VObj (acc ++ qs), rest) /\
             Forall2 (fun kv kw => fst kv = fst kw /\ json_eq (snd kv) (snd kw)) ps qs.
Proof.
  intros IHg ps. revert g IHg.
  induction ps as [|[k v] ps IH]; intros g IHg acc rest Hd Hnd Hne Hlen; [congruence|].
  inversion Hd as [|? ? Hv Hps]; subst. cbn [snd] in Hv.
  destruct g as [|g0]; [lia|].
  assert (Hfresh : ~ In k (map fst acc)).
  { cbn [map fst] in Hnd. intro Hin. apply NoDup_remove_2 in Hnd. apply Hnd, in_or_app. left; exact Hin. }
  assert (Hmlen : length (lac (str v)) < length (lac (mstr (k, v)))).
  { unfold mstr. cbn [fst snd]. rewrite !lac_app, !length_app. cbn [lac length]. lia. }
  destruct ps as [|kw ps'].
  - cbn [map String.concat] in *.
    destruct (IHg g0 ltac:(lia) v ("}"%char :: rest) Hv ltac:(lia) ltac:(apply num_stop_punct; auto))
      as (v' & Hp & Hq).
    rewrite p_members_head, Hp. rewrite skip_ws_nonws by reflexivity. cbv iota.
    replace (Ascii.eqb "}"%char ","%char) with false by reflexivity.
    replace (Ascii.eqb "}"%char "}"%char) with true by reflexivity. cbv iota.
    rewrite obj_set_fresh by exact Hfresh.
    exists [(k, v')]. split; [reflexivity|]. constructor; [split; [reflexivity | exact Hq] | constructor].
  - change (map mstr ((k, v) :: kw :: ps')) with (mstr (k, v) :: map mstr (kw :: ps')) in *.
    rewrite lac_concat_cons in * by discriminate.
    rewrite length_app in Hlen. cbn [length] in Hlen.
    rewrite <- app_assoc. cbn [app].
    destruct (IHg g0 ltac:(lia) v (","%char :: lac (String.concat "," (map mstr (kw :: ps'))) ++ "}"%char :: rest)
                Hv ltac:(lia) ltac:(apply num_stop_punct; auto)) as (v' & Hp & Hq).
    rewrite p_members_head, Hp. rewrite skip_ws_nonws by reflexivity.
    replace (Ascii.eqb ","%char ","%char) with true by reflexivity. cbv iota.
    rewrite obj_set_fresh by exact Hfresh.
    destruct kw as [k2 v2].
    assert (Hskip : skip_ws (lac (String.concat "," (map mstr ((k2, v2) :: ps'))) ++ "}"%char :: rest)
                    = lac (String.concat "," (map mstr ((k2, v2) :: ps'))) ++ "}"%char :: rest).
    { destruct ps' as [|kw3 ps3].
      - cbn [map String.concat]. unfold mstr, quote, str1. cbn [fst snd append list_ascii_of_string app].
        reflexivity.
      - change (map mstr ((k2, v2) :: kw3 :: ps3)) with (mstr (k2, v2) :: map mstr (kw3 :: ps3)).
        rewrite lac_concat_cons by discriminate.
        unfold mstr at 1, quote, str1. cbn [fst snd append list_ascii_of_string app].
        reflexivity. }
    rewrite Hskip.
    destruct (IH g0 ltac:(intros; apply IHg; lia) (acc ++ [(k, v')]) rest Hps) as (qs & Hp' & Hq');
      [| discriminate | lia |].
    { rewrite map_app. cbn [map fst]. cbn [map fst] in Hnd. rewrite <- app_assoc. exact Hnd. }
    rewrite Hp'. exists ((k, v') :: qs). split.
    + rewrite <- app_assoc. reflexivity.
    + constructor; [split; [reflexivity | exact Hq] | exact Hq'].
Qed.

(** The parser reads back the serialization of every JSON datum. *)
Lemma value_round_trip f : P_value f.
Proof.
  induction f as [f IHf] using lt_wf_ind.
  intros v rest Hv Hlen Hr.
  destruct f as [|f0]; [lia|].
  destruct Hv as [ | b | n | s | l Hl | ps Hnd Hps ].
  - exists VNull. split; [reflexivity | constructor].
  - exists (VBool b). split; [destruct b; reflexivity | constructor].
  - destruct (num_round_trip f0 n rest Hr) as (n' & Hp & Hq).
    exists (VNum n'). split; [exact Hp | constructor; exact Hq].
  - exists (VStr s). split; [apply str_round_trip | constructor].
  - destruct l as [|x l'].
    + exists (VArr []). split; [reflexivity | constructor; constructor].
    + rewrite str_arr in *. rewrite !lac_app in *. rewrite !length_app in Hlen.
      cbn [lac length app] in *. rewrite <- app_assoc. cbn [app].
      destruct (str_head x) as (c & r & Hcr & Hc1 & Hc2 & _); [inversion Hl; assumption|].
      destruct (elems_round_trip f0 ltac:(intros; apply IHf; lia) (x :: l') [] rest Hl
                  ltac:(discriminate) ltac:(lia)) as (l2 & Hp & Hq).
      exists (VArr l2). split; [|constructor; exact Hq].
      assert (Hh : exists r', lac (String.concat "," (map str (x :: l'))) = c :: r').
      { destruct l' as [|y l''].
        - cbn [map String.concat]. rewrite Hcr. eexists; reflexivity.
        - change (map str (x :: y :: l'')) with (str x :: map str (y :: l'')).
          rewrite lac_concat_cons by discriminate. rewrite Hcr. eexists; reflexivity. }
      destruct Hh as [r' Hh]. rewrite Hh in *.
      cbn [app]. rewrite p_value_arr_open, skip_ws_nonws by exact Hc1.
      rewrite <- Ascii.eqb_neq in Hc2. rewrite Hc2. exact Hp.
  - destruct ps as [|kv ps'].
    + exists (VObj []). split; [reflexivity | constructor; constructor].
    + rewrite str_obj in * by exact Hps. rewrite !lac_app in *. rewrite !length_app in Hlen.
      cbn [lac length app] in *. rewrite <- app_assoc. cbn [app].
      destruct (members_round_trip f0 ltac:(intros; apply IHf; lia) (kv :: ps') [] rest Hps
                  ltac:(exact Hnd) ltac:(discriminate) ltac:(lia)) as (qs & Hp & Hq).
      exists (VObj qs). split; [|constructor; exact Hq].
      assert (Hcon : exists r, lac (String.concat "," (map mstr (kv :: ps'))) = dquote :: r).
      { destruct kv as [k x]. destruct ps' as [|y ps''].
        - cbn [map String.concat]. unfold mstr, quote, str1. cbn [fst snd append list_ascii_of_string].
          eexists; reflexivity.
        - change (map mstr ((k, x) :: y :: ps'')) with (mstr (k, x) :: map mstr (y :: ps'')).
          rewrite lac_concat_cons by discriminate.
          unfold mstr at 1, quote, str1. cbn [fst snd append list_ascii_of_string app].
          eexists; reflexivity. }
      destruct Hcon as [r Hcon].
      rewrite Hcon in *. cbn [app] in *. rewrite p_value_obj_open, skip_ws_nonws by reflexivity.
      replace (Ascii.eqb dquote "}"%char) with false by reflexivity. exact Hp.
Qed.

(** [JSON.parse(JSON.stringify(v))] gives back [v] for JSON data. *)
Lemma JSON_parse_stringify v :
  json_data v -> exists v', JSON_parse (str v) = Normal v' /\ json_eq v v'.
Proof.
  intros Hv. unfold JSON_parse.
  destruct (value_round_trip (S (length (lac (str v)))) v [] Hv ltac:(lia) I) as (v' & Hp & Hq).
  rewrite app_nil_r in Hp. rewrite Hp. exists v'. split; [reflexivity | exact Hq].
Qed.

Lemma stringify_object_str o : stringify_object o = str (VObj o).
Proof. reflexivity. Qed.

Lemma getItem_set_item_same its k v :
  match find (fun '(k', _) => String.eqb k k') (set_item its k v) with
  | Some (_, x) => Some x | None => None end = Some v.
Proof.
  induction its as [|[k' v'] its IH]; simpl.
  - rewrite String.eqb_refl. reflexivity.
  - destruct (String.eqb k k') eqn:E; simpl.
    + rewrite String.eqb_refl. reflexivity.
    + rewrite E. exact IH.
Qed.

Lemma getItem_set_item_other its k v k2 : k2 <> k ->
  match find (fun '(k', _) => String.eqb k2 k') (set_item its k v) with
  | Some (_, x) => Some x | None => None end =
  match find (fun '(k', _) => String.eqb k2 k') its with
  | Some (_, x) => Some x | None => None end.
Proof.
  intros Hne. induction its as [|[k' v'] its IH]; simpl.
  - apply String.eqb_neq in Hne. rewrite Hne. reflexivity.
  - destruct (String.eqb k k') eqn:E; simpl.
    + apply String.eqb_eq in E. subst k'. apply String.eqb_neq in Hne. rewrite Hne. reflexivity.
    + destruct (String.eqb k2 k'); [reflexivity | exact IH].
Qed.

Lemma str_obj_head ps : exists r, lac (str (VObj ps)) = "{"%char :: r.
Proof. unfold str. cbn [JSON_stringify]. eexists. reflexivity. Qed.

(** When the chat is JSON data and fits in the quota, saving it and loading
    it back gives equal messages and durations. *)
Theorem save_load_round_trip st ms ds :
  json_data (VArr ms) -> json_data (VObj ds) ->
  storage_size (set_item (items st) STORAGE_KEY
                  (stringify_object [("messages", VArr ms); ("durations", VObj ds)])) <= quota st ->
  exists ms' ds',
    loadMessagesFromStorage (saveMessagesToStorage (Some st) (VArr ms) (VObj ds)) = (VArr ms', VObj ds') /\
    json_eq (VArr ms) (VArr ms') /\ json_eq (VObj ds) (VObj ds').
Proof.
  intros Hm Hd Hq.
  set (data := [("messages", VArr ms); ("durations", VObj ds)]).
  assert (Hdata : json_data (VObj data)).
  { constructor.
    - simpl. constructor; [simpl; intros [H|H]; [discriminate | exact H] |].
      constructor; [intros []| constructor].
    - constructor; [exact Hm | constructor; [exact Hd | constructor]]. }
  destruct (JSON_parse_stringify _ Hdata) as (v' & Hp & Hqv).
  assert (Hset : setItem st STORAGE_KEY (stringify_object data) =
                 Normal (LocalStorage (set_item (items st) STORAGE_KEY (stringify_object data)) (quota st))).
  { unfold setItem. apply Nat.leb_le in Hq. cbv zeta. fold data in Hq. rewrite Hq. reflexivity. }
  unfold saveMessagesToStorage. fold data. rewrite Hset.
  unfold loadMessagesFromStorage, getItem. cbn [items].
  rewrite getItem_set_item_same.
  rewrite stringify_object_str.
  destruct (str_obj_head data) as [r Hr].
  assert (Hne : String.eqb (str (VObj data)) EmptyString = false).
  { apply String.eqb_neq. intro E. rewrite E in Hr. discriminate. }
  rewrite Hne, Hp.
  inversion Hqv as [| | | | | | ps qs Hf]; subst.
  inversion Hf as [|kv kw l1 l2 [Hk1 Hv1] Hf2]; subst.
  inversion Hf2 as [|kv2 kw2 l3 l4 [Hk2 Hv2] Hf3]; subst.
  inversion Hf3; subst.
  destruct kw as [k1 w1], kw2 as [k2 w2]. cbn [fst snd] in *. subst k1 k2.
  inversion Hv1 as [| | | | | l l' Hl | ]; subst.
  inversion Hv2 as [| | | | | | ps qs Hps]; subst.
  exists l', qs. split; [reflexivity|]. split; assumption.
Qed.

(** When the new chat does not fit in the storage quota, [setItem] throws,
    the error is caught, and the stored chat is left as it was: a reload
    shows the chat of before the save. *)
Theorem save_quota_exceeded st m d :
  quota st < storage_size (set_item (items st) STORAGE_KEY
                  (stringify_object [("messages", m); ("durations", d)])) ->
  saveMessagesToStorage (Some st) m d = Some st /\
  loadMessagesFromStorage (saveMessagesToStorage (Some st) m d) = loadMessagesFromStorage (Some st).
Proof.
  intros H. assert (E : saveMessagesToStorage (Some st) m d = Some st).
  { unfold saveMessagesToStorage, setItem. cbv zeta.
    replace (Nat.leb _ _) with false by (symmetry; apply Nat.leb_gt; exact H). reflexivity. }
  split; [exact E | rewrite E; reflexivity].
Qed.

Lemma set_item_keys_other its k v k2 : k2 <> k ->
  find (fun '(k', _) => String.eqb k2 k') (set_item its k v) =
  find (fun '(k', _) => String.eqb k2 k') its.
Proof.
  intros Hne. induction its as [|[k' v'] its IH]; simpl.
  - apply String.eqb_neq in Hne. rewrite Hne. reflexivity.
  - destruct (String.eqb k k') eqn:E; simpl.
    + apply String.eqb_eq in E. subst k'. apply String.eqb_neq in Hne. rewrite Hne. reflexivity.
    + destruct (String.eqb k2 k'); [reflexivity | exact IH].
Qed.

(** Saving the chat changes no item but [chat-messages] and keeps the
    quota; the page never loses its storage object. *)
Theorem save_other_keys st m d k :
  k <> STORAGE_KEY ->
  exists st', saveMessagesToStorage (Some st) m d = Some st' /\
              getItem st' k = getItem st k /\ quota st' = quota st.
Proof.
  intros Hk. unfold saveMessagesToStorage, setItem. cbv zeta.
  destruct (Nat.leb _ _).
  - eexists; split; [reflexivity|]. split; [|reflexivity].
    unfold getItem; cbn [items]. rewrite set_item_keys_other by exact Hk. reflexivity.
  - eexists; split; [reflexivity|]. split; reflexivity.
Qed.

(** Loading gives the empty chat on the server, when nothing is stored, when
    the stored text is empty, when it is not JSON, and when it is [null]. *)
Theorem load_fallback w :
  w = None \/
  (exists st, w = Some st /\
     (getItem st STORAGE_KEY = None \/
      getItem st STORAGE_KEY = Some EmptyString \/
      (exists s e, getItem st STORAGE_KEY = Some s /\ JSON_parse s = Throw e) \/
      (exists s, getItem st STORAGE_KEY = Some s /\ JSON_parse s = Normal VNull))) ->
  loadMessagesFromStorage w = empty_chat.
Proof.
  intros [-> | (st & -> & H)]; [reflexivity|].
  unfold loadMessagesFromStorage.
  destruct H as [H | [H | [(s & e & H & Hp) | (s & H & Hp)]]]; rewrite H; try reflexivity.
  - destruct (String.eqb s EmptyString); [reflexivity|]. rewrite Hp. reflexivity.
  - destruct (String.eqb s EmptyString); [reflexivity|]. rewrite Hp. reflexivity.
Qed.

Lemma load_fallback_witness :
  loadMessagesFromStorage (Some (LocalStorage [(STORAGE_KEY, "{oops")] 100)) = empty_chat.
Proof.
  apply load_fallback. right. exists (LocalStorage [(STORAGE_KEY, "{oops")] 100).
  split; [reflexivity|]. right; right; left.
  exists "{oops", "SyntaxError: Unexpected token". split; vm_compute; reflexivity.
Defined.

Lemma truthy_js_or a b : truthy b = true -> truthy (js_or a b) = true.
Proof. unfold js_or. destruct (truthy a) eqn:E; auto. Qed.

(** Clearing the chat resets both states and, when the cleared chat fits
    in the quota, a reload shows the empty chat. *)
Theorem clearChat_spec w :
  (forall st, w = Some st ->
     storage_size (set_item (items st) STORAGE_KEY cleared_text) <= quota st) ->
  exists w', clearChat w = (VArr [], VObj [], w') /\
             loadMessagesFromStorage w' = empty_chat.
Proof.
  intros Hq. unfold clearChat. eexists; split; [reflexivity|].
  destruct w as [st|]; [|reflexivity].
  specialize (Hq st eq_refl). apply Nat.leb_le in Hq.
  unfold saveMessagesToStorage, setItem. cbv zeta. fold cleared_text. rewrite Hq.
  unfold loadMessagesFromStorage, getItem. cbn [items].
  rewrite getItem_set_item_same. vm_compute. reflexivity.
Qed.

Lemma clearChat_spec_witness :
  exists w', clearChat (Some (LocalStorage [("theme", "dark"); (STORAGE_KEY, "{}")] 100)) =
             (VArr [], VObj [], w') /\ loadMessagesFromStorage w' = empty_chat.
Proof.
  apply clearChat_spec. intros st Hst. injection Hst as <-. vm_compute. lia.
Defined.

Lemma find_obj_set_same ps k v :
  find (fun '(k', _) => String.eqb k k') (obj_set ps k v) = Some (k, v).
Proof.
  induction ps as [|[k' v'] ps IH]; simpl.
  - rewrite String.eqb_refl. reflexivity.
  - destruct (String.eqb k k') eqn:E; simpl.
    + rewrite String.eqb_refl. reflexivity.
    + rewrite E. exact IH.
Qed.

Lemma find_obj_set_other ps k v k2 : k2 <> k ->
  find (fun '(k', _) => String.eqb k2 k') (obj_set ps k v) =
  find (fun '(k', _) => String.eqb k2 k') ps.
Proof.
  intros Hne. induction ps as [|[k' v'] ps IH]; simpl.
  - apply String.eqb_neq in Hne. rewrite Hne. reflexivity.
  - destruct (String.eqb k k') eqn:E; simpl.
    + apply String.eqb_eq in E. subst k'. apply String.eqb_neq in Hne. rewrite Hne. reflexivity.
    + destruct (String.eqb k2 k'); [reflexivity | exact IH].
Qed.

Lemma keys_obj_set ps k v :
  keys (obj_set ps k v) = if existsb (String.eqb k) (keys ps) then keys ps else keys ps ++ [k].
Proof.
  unfold keys. induction ps as [|[k' v'] ps IH]; simpl; [reflexivity|].
  destruct (String.eqb k k') eqn:E; simpl.
  - apply String.eqb_eq in E. subst. reflexivity.
  - rewrite IH. destruct (existsb _ _); reflexivity.
Qed.

Lemma insert_index_split ps k v :
  exists l1 l2, ps = l1 ++ l2 /\ insert_index ps k v = l1 ++ (k, v) :: l2.
Proof.
  induction ps as [|[k' v'] ps IH]; simpl.
  - exists [], []. split; reflexivity.
  - destruct (_ && _).
    + destruct IH as (l1 & l2 & -> & ->). exists ((k', v') :: l1), l2. split; reflexivity.
    + exists [], ((k', v') :: ps). split; reflexivity.
Qed.

Lemma js_set_new_split ps k v :
  existsb (String.eqb k) (keys ps) = false -> k <> "__proto__" ->
  exists l1 l2, ps = l1 ++ l2 /\ js_set ps k v = l1 ++ (k, v) :: l2.
Proof.
  intros Hn Hp. unfold js_set. rewrite Hn.
  apply String.eqb_neq in Hp. rewrite Hp. unfold add_property.
  destruct (is_array_index k).
  - apply insert_index_split.
  - exists ps, []. split; [symmetry; apply app_nil_r | reflexivity].
Qed.

Lemma find_key_app (l1 l2 : js_object) k :
  find (fun '(k', _) => String.eqb k k') (l1 ++ l2) =
  match find (fun '(k', _) => String.eqb k k') l1 with
  | Some x => Some x | None => find (fun '(k', _) => String.eqb k k') l2 end.
Proof.
  induction l1 as [|[k' v'] l1 IH]; simpl; [reflexivity|].
  destruct (String.eqb k k'); [reflexivity | exact IH].
Qed.

Lemma find_key_absent (l : js_object) k :
  existsb (String.eqb k) (keys l) = false -> find (fun '(k', _) => String.eqb k k') l = None.
Proof.
  unfold keys. induction l as [|[k' v'] l IH]; simpl; [reflexivity|].
  destruct (String.eqb k k'); [discriminate | exact IH].
Qed.

Lemma existsb_keys_app (l1 l2 : js_object) k :
  existsb (String.eqb k) (keys (l1 ++ l2)) =
  existsb (String.eqb k) (keys l1) || existsb (String.eqb k) (keys l2).
Proof. unfold keys. rewrite map_app, existsb_app. reflexivity. Qed.

Lemma existsb_keys_In (l : js_object) k :
  existsb (String.eqb k) (keys l) = true <-> In k (keys l).
Proof.
  rewrite existsb_exists. split.
  - intros (x & Hx & E). apply String.eqb_eq in E. subst. exact Hx.
  - intros H. exists k. split; [exact H | apply String.eqb_refl].
Qed.

(** After [handleDurationChange key d], [key] maps to [d] and every other key
    to what it mapped to before, for any key but [__proto__]. *)
Theorem handleDurationChange_get prev key d :
  key <> "__proto__" ->
  get (VObj (handleDurationChange prev key d)) key = VNum d /\
  (forall k, k <> key -> get (VObj (handleDurationChange prev key d)) k = get (VObj prev) k).
Proof.
  intros Hp. unfold handleDurationChange, get.
  destruct (existsb (String.eqb key) (keys prev)) eqn:E.
  - unfold js_set. rewrite E. split.
    + rewrite find_obj_set_same. reflexivity.
    + intros k Hk. rewrite find_obj_set_other by exact Hk. reflexivity.
  - destruct (js_set_new_split prev key (VNum d) E Hp) as (l1 & l2 & Hps & ->).
    rewrite Hps in E. rewrite existsb_keys_app in E. apply orb_false_iff in E as [E1 _].
    split.
    + rewrite find_key_app, find_key_absent by exact E1. cbn. rewrite String.eqb_refl. reflexivity.
    + intros k Hk. rewrite Hps, !find_key_app.
      destruct (find _ l1) as [[]|]; [reflexivity|]. cbn.
      apply String.eqb_neq in Hk. rewrite Hk. reflexivity.
Qed.

Lemma handleDurationChange_get_witness :
  get (VObj (handleDurationChange [("msg-1-0", VNum (Num 12 0))] "msg-2-0" (Num 35 (-1)))) "msg-2-0" =
    VNum (Num 35 (-1)) /\
  (forall k, k <> "msg-2-0" ->
     get (VObj (handleDurationChange [("msg-1-0", VNum (Num 12 0))] "msg-2-0" (Num 35 (-1)))) k =
     get (VObj [("msg-1-0", VNum (Num 12 0))]) k).
Proof. apply handleDurationChange_get. discriminate. Defined.

(** [handleDurationChange] adds [key] to the keys and no other, and never
    duplicates a key, for any key but [__proto__]. *)
Theorem handleDurationChange_keys prev key d :
  key <> "__proto__" ->
  (forall k, In k (keys (handleDurationChange prev key d)) <-> k = key \/ In k (keys prev)) /\
  (NoDup (keys prev) -> NoDup (keys (handleDurationChange prev key d))).
Proof.
  intros Hp. unfold handleDurationChange.
  destruct (existsb (String.eqb key) (keys prev)) eqn:E.
  - unfold js_set. rewrite E, keys_obj_set, E. split; [|exact (fun H => H)].
    intros k. split; [intros H; right; exact H|].
    intros [-> | H]; [apply existsb_keys_In; exact E | exact H].
  - destruct (js_set_new_split prev key (VNum d) E Hp) as (l1 & l2 & Hps & ->).
    assert (Hperm : Permutation (keys (l1 ++ (key, VNum d) :: l2)) (key :: keys prev)).
    { rewrite Hps. unfold keys. rewrite !map_app. cbn [map fst].
      symmetry. apply Permutation_middle. }
    split.
    + intros k. split.
      * intros H. apply (Permutation_in _ Hperm) in H. destruct H as [H | H]; [left | right]; auto.
      * intros H. apply (Permutation_in _ (Permutation_sym Hperm)).
        destruct H as [-> | H]; [left; reflexivity | right; exact H].
    + intros Hn. apply (Permutation_NoDup (Permutation_sym Hperm)). constructor; [|exact Hn].
      intros H. apply existsb_keys_In in H. congruence.
Qed.

Lemma handleDurationChange_keys_witness :
  (forall k, In k (keys (handleDurationChange [("msg-1-0", VNum (Num 12 0))] "msg-2-0" (Num 35 (-1)))) <->
             k = "msg-2-0" \/ In k (keys [("msg-1-0", VNum (Num 12 0))])) /\
  (NoDup (keys [("msg-1-0", VNum (Num 12 0))]) ->
   NoDup (keys (handleDurationChange [("msg-1-0", VNum (Num 12 0))] "msg-2-0" (Num 35 (-1))))).
Proof. apply handleDurationChange_keys. discriminate. Defined.

Lemma p_members_obj f l acc v r :
  p_members f l acc = Some (v, r) -> exists ps, v = VObj ps.
Proof.
  revert l acc. induction f as [|f IH]; intros l acc H; [discriminate|].
  simpl in H.
  destruct l as [|q r0]; [discriminate|].
  destruct (Ascii.eqb q dquote); [|discriminate].
  destruct (p_chars r0 []) as [[k r1]|]; [|discriminate].
  destruct (skip_ws r1) as [|c r2]; [discriminate|].
  destruct (Ascii.eqb c ":"%char); [|discriminate].
  destruct (p_value f r2) as [[v0 r3]|]; [|discriminate].
  destruct (skip_ws r3) as [|d r4]; [discriminate|].
  destruct (Ascii.eqb d ","%char); [eapply IH; exact H|].
  destruct (Ascii.eqb d "}"%char); [|discriminate].
  injection H as <- _. eexists; reflexivity.
Qed.

Lemma p_elems_arr f l acc v r :
  p_elems f l acc = Some (v, r) -> exists xs, v = VArr xs.
Proof.
  revert l acc. induction f as [|f IH]; intros l acc H; [discriminate|].
  simpl in H.
  destruct (p_value f l) as [[v0 r0]|]; [|discriminate].
  destruct (skip_ws r0) as [|c r1]; [discriminate|].
  destruct (Ascii.eqb c ","%char); [eapply IH; exact H|].
  destruct (Ascii.eqb c "]"%char); [|discriminate].
  injection H as <- _. eexists; reflexivity.
Qed.

Lemma JSON_parse_open_brace b v :
  JSON_parse (String "{" b) = Normal v -> exists ps, v = VObj ps.
Proof.
  unfold JSON_parse. cbn [list_ascii_of_string length].
  destruct (p_value _ _) as [[v0 r]|] eqn:Hp; [|discriminate].
  destruct (skip_ws r); [|discriminate]. intros E; injection E as <-.
  rewrite p_value_obj_open in Hp.
  destruct (skip_ws (lac b)) as [|c r'] eqn:Hs; [discriminate|].
  destruct (Ascii.eqb c "}"%char).
  - injection Hp as <- _. eexists; reflexivity.
  - eapply p_members_obj; exact Hp.
Qed.

Lemma JSON_parse_open_bracket b v :
  JSON_parse (String "[" b) = Normal v -> exists xs, v = VArr xs.
Proof.
  unfold JSON_parse. cbn [list_ascii_of_string length].
  destruct (p_value _ _) as [[v0 r]|] eqn:Hp; [|discriminate].
  destruct (skip_ws r); [|discriminate]. intros E; injection E as <-.
  rewrite p_value_arr_open in Hp.
  destruct (skip_ws (lac b)) as [|c r'] eqn:Hs; [discriminate|].
  destruct (Ascii.eqb c "]"%char).
  - injection Hp as <- _. eexists; reflexivity.
  - eapply p_elems_arr; exact Hp.
Qed.

(** The loaded messages and durations are never falsy; from a stored text
    that parses to [p], they are [p.messages] and [p.durations] when these
    are truthy, and exactly [[]] and [{}] otherwise (a missing, [0], empty
    string, [false] or [null] field, and a stored [null]). *)
Theorem load_truthy w :
  truthy (fst (loadMessagesFromStorage w)) = true /\
  truthy (snd (loadMessagesFromStorage w)) = true /\
  (forall st s p, w = Some st -> getItem st STORAGE_KEY = Some s -> JSON_parse s = Normal p ->
     loadMessagesFromStorage w =
       (if truthy (get p "messages") then get p "messages" else VArr [],
        if truthy (get p "durations") then get p "durations" else VObj [])).
Proof.
  split; [|split].
  1, 2: unfold loadMessagesFromStorage;
    destruct w as [st|]; [|reflexivity];
    destruct (getItem st STORAGE_KEY) as [s|]; [|reflexivity];
    destruct (String.eqb s EmptyString); [reflexivity|];
    destruct (JSON_parse s) as [p|]; [|reflexivity];
    destruct (member p "messages") as [m|]; [|reflexivity];
    destruct (member p "durations") as [d|]; [|reflexivity];
    cbn [fst snd]; apply truthy_js_or; reflexivity.
  intros st s p -> Hg Hp. unfold loadMessagesFromStorage. rewrite Hg.
  destruct (String.eqb s EmptyString) eqn:E.
  { apply String.eqb_eq in E; subst s. vm_compute in Hp. discriminate. }
  rewrite Hp.
  destruct p; reflexivity.
Qed.

Lemma first_pos_substring c s i n :
  first_pos c s = Some i -> exists b, String.substring i (S n) s = String c b.
Proof.
  revert i; induction s as [|d s IH]; intros i H; simpl in H; [discriminate|].
  destruct (Ascii.eqb c d) eqn:E.
  - injection H as <-. apply Ascii.eqb_eq in E. subst d. eexists; reflexivity.
  - destruct (first_pos c s) as [k|]; [|discriminate].
    injection H as <-. simpl. apply IH. reflexivity.
Qed.

(** Whatever the text, [parseAssistantJson] gives back only objects and
    arrays, never a string, number, boolean or [null]. *)
Theorem parseAssistantJson_shape text v :
  parseAssistantJson text = Normal (Some v) ->
  (exists ps, v = VObj ps) \/ (exists xs, v = VArr xs).
Proof.
  destruct text as [t|]; [|discriminate].
  rewrite parseAssistantJson_spec. unfold spec_extract.
  set (tr := js_trim t).
  destruct (starts_with tr "{") eqn:E1; [|destruct (starts_with tr "[") eqn:E2]; cbn [orb].
  - apply prefix_sound in E1 as [b Hb]. rewrite Hb.
    destruct (JSON_parse _) as [w|] eqn:Hp; [|discriminate].
    intros H; injection H as <-. left. exact (JSON_parse_open_brace b w Hp).
  - apply prefix_sound in E2 as [b Hb]. rewrite Hb.
    destruct (JSON_parse _) as [w|] eqn:Hp; [|discriminate].
    intros H; injection H as <-. right. exact (JSON_parse_open_bracket b w Hp).
  - destruct (first_pos "{"%char tr) as [i|] eqn:Ei; [|discriminate].
    destruct (last_pos "}"%char tr) as [j|]; [|discriminate].
    destruct (Nat.ltb i j); [|discriminate].
    replace (j - i + 1) with (S (j - i)) by lia.
    destruct (first_pos_substring _ _ _ (j - i) Ei) as [b Hb]. rewrite Hb.
    destruct (JSON_parse _) as [w|] eqn:Hp; [|discriminate].
    intros H; injection H as <-. left. exact (JSON_parse_open_brace b w Hp).
Qed.

Lemma first_some_strip_none seqs c r :
  Forall (fun p => exists n p', p = n :: p' /\ n <> nat_of_ascii c) seqs ->
  first_some (fun p => strip_prefix p (c :: r)) seqs = None.
Proof.
  induction 1 as [|p seqs (n & p' & -> & Hn) _ IH]; [reflexivity|].
  cbn [first_some strip_prefix]. apply Nat.eqb_neq in Hn. rewrite Hn. exact IH.
Qed.

Lemma strip_seqs_stop seqs fuel c r :
  first_some (fun p => strip_prefix p (c :: r)) seqs = None ->
  strip_seqs seqs fuel (c :: r) = c :: r.
Proof. intros H. destruct fuel; cbn [strip_seqs]; [reflexivity|]. rewrite H. reflexivity. Qed.

Ltac heads_differ :=
  repeat (apply Forall_cons; [eexists _, _; split; [reflexivity | lia] |]); apply Forall_nil.

Lemma ws_heads c : visible c ->
  Forall (fun p => exists n p', p = n :: p' /\ n <> nat_of_ascii c) js_ws_seqs.
Proof. unfold visible, js_ws_seqs. intros H. heads_differ. Qed.

Lemma ws_tails c : visible c ->
  Forall (fun p => exists n p', p = n :: p' /\ n <> nat_of_ascii c) (map (@rev nat) js_ws_seqs).
Proof. unfold visible, js_ws_seqs. intros H. cbn [map rev app]. heads_differ. Qed.

Lemma js_trim_visible s c r d r' :
  lac s = c :: r -> visible c -> lac s = r' ++ [d] -> visible d -> js_trim s = s.
Proof.
  intros H1 Hc H2 Hd. unfold js_trim.
  rewrite H1, strip_seqs_stop by (apply first_some_strip_none, ws_heads, Hc).
  rewrite <- H1, H2, rev_app_distr. cbn [rev app].
  rewrite strip_seqs_stop by (apply first_some_strip_none, ws_tails, Hd).
  change (d :: rev r') with (rev [d] ++ rev r'). rewrite <- rev_app_distr, rev_involutive.
  rewrite <- H2. apply string_of_list_ascii_of_string.
Qed.

Lemma first_pos_app c a b :
  first_pos c (a ++ b) =
  match first_pos c a with Some k => Some k | None => option_map (Nat.add (String.length a)) (first_pos c b) end.
Proof.
  induction a as [|d a IH]; simpl.
  - destruct (first_pos c b); reflexivity.
  - destruct (Ascii.eqb c d); [reflexivity|]. rewrite IH.
    destruct (first_pos c a); [reflexivity|]. destruct (first_pos c b); reflexivity.
Qed.

Lemma last_pos_app c a b :
  last_pos c (a ++ b) =
  match last_pos c b with Some k => Some (String.length a + k) | None => last_pos c a end.
Proof.
  induction a as [|d a IH]; simpl.
  - destruct (last_pos c b); reflexivity.
  - rewrite IH. destruct (last_pos c b); [reflexivity|]. reflexivity.
Qed.

Lemma first_pos_absent c s : ~ In c (lac s) -> first_pos c s = None.
Proof.
  induction s as [|d s IH]; intros H; simpl in *; [reflexivity|].
  destruct (Ascii.eqb c d) eqn:E.
  - apply Ascii.eqb_eq in E. subst. exfalso. apply H. left. reflexivity.
  - rewrite IH; [reflexivity|]. intros Hi; apply H; right; exact Hi.
Qed.

Lemma last_pos_absent c s : ~ In c (lac s) -> last_pos c s = None.
Proof.
  induction s as [|d s IH]; intros H; simpl in *; [reflexivity|].
  rewrite IH by (intros Hi; apply H; right; exact Hi).
  destruct (Ascii.eqb c d) eqn:E; [|reflexivity].
  apply Ascii.eqb_eq in E. subst. exfalso. apply H. left. reflexivity.
Qed.

Lemma substring_app_mid a b c :
  String.substring (String.length a) (String.length b) (a ++ b ++ c) = b.
Proof.
  induction a as [|x a IH]; simpl; [|exact IH].
  induction b as [|y b IHb]; simpl; [destruct c; reflexivity|]. rewrite IHb. reflexivity.
Qed.

Lemma str_obj_text ps :
  str (VObj ps) = ("{" ++ String.concat "," (obj_members ps) ++ "}")%string.
Proof. reflexivity. Qed.

Lemma str_arr_text l :
  str (VArr l) = ("[" ++ String.concat "," (map str l) ++ "]")%string.
Proof. reflexivity. Qed.

Lemma str_app_nil_r s : (s ++ EmptyString)%string = s.
Proof. induction s as [|c s IH]; simpl; [reflexivity | rewrite IH; reflexivity]. Qed.

Lemma str_length_app a b : String.length (a ++ b) = String.length a + String.length b.
Proof. induction a as [|c a IH]; simpl; [reflexivity | rewrite IH; reflexivity]. Qed.

Lemma lac_snoc s d : lac (s ++ String d EmptyString) = lac s ++ [d].
Proof. rewrite lac_app. reflexivity. Qed.

(** The recovery of a serialized object inside prose. *)
Lemma embedded_object_recovered pre post ps :
  json_data (VObj ps) ->
  (exists c r, lac pre = c :: r /\ visible c /\ c <> "["%char) ->
  ~ In "{"%char (lac pre) ->
  ~ In "}"%char (lac post) ->
  (post = EmptyString \/ exists p d, post = (p ++ String d EmptyString)%string /\ visible d) ->
  exists v, parseAssistantJson (Some (pre ++ str (VObj ps) ++ post)%string) = Normal (Some v) /\
            json_eq (VObj ps) v.
Proof.
  intros Hd (c & r & Hpre & Hc & Hcb) Hno Hnc Hpost.
  destruct (JSON_parse_stringify _ Hd) as (v' & Hp & Hq).
  exists v'. split; [|exact Hq].
  rewrite parseAssistantJson_spec. unfold spec_extract.
  set (M := String.concat "," (obj_members ps)).
  assert (HX : str (VObj ps) = (("{" ++ M) ++ "}")%string)
    by (rewrite str_obj_text; symmetry; apply str_app_assoc).
  set (t := (pre ++ str (VObj ps) ++ post)%string).
  assert (Ht : js_trim t = t).
  { destruct Hpost as [-> | (p & d & -> & Hdv)].
    - apply (js_trim_visible t c (r ++ lac (str (VObj ps) ++ EmptyString)) "}"%char (lac pre ++ lac ("{" ++ M))).
      + unfold t. rewrite lac_app, Hpre. reflexivity.
      + exact Hc.
      + unfold t. rewrite str_app_nil_r, HX, !lac_app. cbn [lac]. rewrite app_assoc. reflexivity.
      + unfold visible; cbn; lia.
    - apply (js_trim_visible t c (r ++ lac (str (VObj ps) ++ p ++ String d EmptyString)) d (lac pre ++ lac (str (VObj ps)) ++ lac p)).
      + unfold t. rewrite lac_app, Hpre. reflexivity.
      + exact Hc.
      + unfold t. rewrite !lac_app. cbn [lac]. rewrite !app_assoc. reflexivity.
      + exact Hdv. }
  rewrite Ht.
  assert (Hs1 : starts_with t "{" = false).
  { unfold t, starts_with. destruct pre as [|c0 pre']; [discriminate|].
    cbn in Hpre. injection Hpre as <- _. cbn [append String.prefix].
    destruct (ascii_dec "{" c0) as [E|]; [|reflexivity].
    exfalso. apply Hno. subst. left. reflexivity. }
  assert (Hs2 : starts_with t "[" = false).
  { unfold t, starts_with. destruct pre as [|c0 pre']; [discriminate|].
    cbn in Hpre. injection Hpre as <- _. cbn [append String.prefix].
    destruct (ascii_dec "[" c0) as [E|]; [|reflexivity].
    exfalso. apply Hcb. symmetry. exact E. }
  rewrite Hs1, Hs2. cbn [orb].
  assert (Hi : first_pos "{"%char t = Some (String.length pre)).
  { unfold t. rewrite first_pos_app, first_pos_absent by exact Hno.
    rewrite HX. cbn [append first_pos]. rewrite Ascii.eqb_refl. cbn [option_map]. f_equal. lia. }
  assert (Hj : last_pos "}"%char t = Some (String.length pre + String.length ("{" ++ M))).
  { unfold t. rewrite last_pos_app, last_pos_app, (last_pos_absent _ post) by exact Hnc.
    rewrite HX, last_pos_app. cbn [last_pos]. rewrite Ascii.eqb_refl. f_equal. lia. }
  rewrite Hi, Hj.
  replace (Nat.ltb _ _) with true by (symmetry; apply Nat.ltb_lt; cbn [append String.length]; lia).
  replace (String.length pre + String.length ("{" ++ M) - String.length pre + 1)
    with (String.length (str (VObj ps))) by (rewrite HX, !str_length_app; cbn [String.length]; lia).
  unfold t. rewrite substring_app_mid, Hp. reflexivity.
Qed.

(** A JSON object serialized by [JSON.stringify] inside prose is recovered,
    whatever braces its string literals hold, when the prose before it has
    no [{] and starts with a visible character other than [[], and the prose
    after it has no [}] and is empty or ends with a visible character. *)
Theorem parseAssistantJson_embedded_object pre post ps :
  json_data (VObj ps) ->
  (exists c r, lac pre = c :: r /\ visible c /\ c <> "["%char) ->
  ~ In "{"%char (lac pre) ->
  ~ In "}"%char (lac post) ->
  (post = EmptyString \/ exists p d, post = (p ++ String d EmptyString)%string /\ visible d) ->
  exists v, parseAssistantJson (Some (pre ++ str (VObj ps) ++ post)%string) = Normal (Some v) /\
            json_eq (VObj ps) v.
Proof. exact (embedded_object_recovered pre post ps). Qed.

Lemma parseAssistantJson_embedded_object_witness :
  exists v, parseAssistantJson (Some ("Sure! " ++ str (VObj [("intent", VStr "log_food")]) ++ " Enjoy!")%string) =
            Normal (Some v) /\ json_eq (VObj [("intent", VStr "log_food")]) v.
Proof.
  apply parseAssistantJson_embedded_object.
  - constructor; [simpl; constructor; [intros []|constructor] | repeat constructor].
  - exists "S"%char, (lac "ure! "). split; [reflexivity|]. split; [unfold visible; vm_compute; lia | discriminate].
  - simpl. intuition discriminate.
  - simpl. intuition discriminate.
  - right. exists " Enjoy", "!"%char. split; [reflexivity | unfold visible; vm_compute; lia].
Defined.

Lemma starts_with_head c s : starts_with (String c s) (String c EmptyString) = true.
Proof.
  unfold starts_with. cbn [String.prefix].
  destruct (ascii_dec c c) as [_|n]; [destruct s; reflexivity | congruence].
Qed.

(** A reply that is exactly a serialized object or array is recovered. *)
Theorem parseAssistantJson_bare_reply v :
  json_data v -> (exists ps, v = VObj ps) \/ (exists xs, v = VArr xs) ->
  exists v', parseAssistantJson (Some (str v)) = Normal (Some v') /\ json_eq v v'.
Proof.
  intros Hd Hshape.
  destruct (JSON_parse_stringify _ Hd) as (v' & Hp & Hq).
  exists v'. split; [|exact Hq].
  rewrite parseAssistantJson_spec. unfold spec_extract.
  assert (Ht : js_trim (str v) = str v /\ (starts_with (str v) "{" || starts_with (str v) "[") = true).
  { destruct Hshape as [(ps & ->) | (xs & ->)].
    - rewrite str_obj_text. split; [|cbn [append]; rewrite starts_with_head; reflexivity].
      set (M := String.concat "," (obj_members ps)).
      apply (js_trim_visible _ "{"%char (lac (M ++ "}")) "}"%char (lac ("{" ++ M))).
      + reflexivity.
      + unfold visible; cbn; lia.
      + rewrite <- str_app_assoc, lac_snoc. reflexivity.
      + unfold visible; cbn; lia.
    - rewrite str_arr_text. split; [|cbn [append]; rewrite starts_with_head; apply orb_true_r].
      set (M := String.concat "," (map str xs)).
      apply (js_trim_visible _ "["%char (lac (M ++ "]")) "]"%char (lac ("[" ++ M))).
      + reflexivity.
      + unfold visible; cbn; lia.
      + rewrite <- str_app_assoc, lac_snoc. reflexivity.
      + unfold visible; cbn; lia. }
  destruct Ht as [Ht Hs]. rewrite Ht, Hs, Hp. reflexivity.
Qed.

Lemma parseAssistantJson_bare_reply_witness :
  exists v', parseAssistantJson (Some (str (VArr [VNum (Num 25 (-1)); VStr "kcal"]))) = Normal (Some v') /\
             json_eq (VArr [VNum (Num 25 (-1)); VStr "kcal"]) v'.
Proof.
  apply parseAssistantJson_bare_reply.
  - repeat constructor.
  - right. eexists; reflexivity.
Defined.

Lemma has_keys_nonempty (p : js_object) : p <> [] -> has_keys (Some p) = true.
Proof. destruct p; [congruence | reflexivity]. Qed.

(** A non-empty profile and session state reach the model as JSON text that
    parses back to them. *)
Theorem buildMessages_context_json cfg opts :
  (forall p, userProfile opts = Some p -> p <> [] -> json_data (VObj p) ->
     exists s v, contains (second_content (buildMessages cfg opts)) ("User profile: " ++ s ++ ".") /\
                 JSON_parse s = Normal v /\ json_eq (VObj p) v) /\
  (forall q, sessionState opts = Some q -> q <> [] -> json_data (VObj q) ->
     exists s v, contains (second_content (buildMessages cfg opts)) ("Session state: " ++ s ++ ".") /\
                 JSON_parse s = Normal v /\ json_eq (VObj q) v).
Proof.
  split.
  - intros p Hp Hne Hd. destruct (JSON_parse_stringify _ Hd) as (v & Hv & Hq).
    exists (str (VObj p)), v. split; [|split; assumption].
    rewrite second_content_buildMessages, Hp, has_keys_nonempty by exact Hne.
    do 6 apply contains_app_r. apply contains_app_l. apply contains_refl.
  - intros q Hs Hne Hd. destruct (JSON_parse_stringify _ Hd) as (v & Hv & Hq).
    exists (str (VObj q)), v. split; [|split; assumption].
    rewrite second_content_buildMessages, Hs, has_keys_nonempty by exact Hne.
    do 8 apply contains_app_r. apply contains_app_l. apply contains_refl.
Qed.

Lemma save_load_round_trip_witness :
  exists ms' ds',
    loadMessagesFromStorage (saveMessagesToStorage (Some (LocalStorage [("theme", "dark")] 200))
      (VArr [VObj [("role", VStr "user"); ("content", VStr "Log 2 eggs")]])
      (VObj [("1", VNum (Num 15 (-1)))])) = (VArr ms', VObj ds') /\
    json_eq (VArr [VObj [("role", VStr "user"); ("content", VStr "Log 2 eggs")]]) (VArr ms') /\
    json_eq (VObj [("1", VNum (Num 15 (-1)))]) (VObj ds').
Proof.
  apply save_load_round_trip.
  - repeat constructor; simpl; intuition discriminate.
  - repeat constructor; simpl; intuition discriminate.
  - vm_compute. lia.
Defined.

Lemma save_quota_exceeded_witness :
  saveMessagesToStorage (Some (LocalStorage [] 20)) (VArr []) (VObj []) = Some (LocalStorage [] 20) /\
  loadMessagesFromStorage (saveMessagesToStorage (Some (LocalStorage [] 20)) (VArr []) (VObj [])) =
  loadMessagesFromStorage (Some (LocalStorage [] 20)).
Proof. apply save_quota_exceeded. vm_compute. lia. Defined.

Lemma save_other_keys_witness :
  exists st', saveMessagesToStorage (Some (LocalStorage [("theme", "dark")] 100)) (VArr []) (VObj []) = Some st' /\
              getItem st' "theme" = getItem (LocalStorage [("theme", "dark")] 100) "theme" /\
              quota st' = quota (LocalStorage [("theme", "dark")] 100).
Proof. apply save_other_keys. unfold STORAGE_KEY. discriminate. Defined.

Lemma parseAssistantJson_shape_witness :
  (exists ps, VObj [("ok", VBool true)] = VObj ps) \/ (exists xs, VObj [("ok", VBool true)] = VArr xs).
Proof.
  apply (parseAssistantJson_shape (Some ("Done: " ++ str (VObj [("ok", VBool true)]))%string)).
  vm_compute. reflexivity.
Defined.



End RoundTrip.
